(** * xu::shared_buf : a reference-counted byte buffer, its cursors and its
      hexadecimal dump.

    Shallow embedding of [include/shared_buf.hpp] (the revision the test
    program builds against) and of the two earlier revisions of the same
    header kept in the repository.

    - [size_t] values are numbers of type [N]; the wrap-around of the
      unsigned arithmetic is written out ([wrap]), for an arbitrary bit
      width [w].
    - [uint8_t] values are [Byte.byte].
    - The program state is a store: the allocations made by [new uint8_t[n]]
      with the control block of their [std::shared_ptr] (the owner count),
      and the [shared_buf] objects themselves, addressed by the name of the
      variable that holds them.  Two names are two objects; one name used
      twice is one object, which is what self assignment needs.
    - [std::shared_ptr] and [std::ostream] are not part of the repository.
      Their operations are written after the C++ standard
      ([util.smartptr.shared], [ostream.formatted.reqmts],
      [ostream.inserters.character], [facet.num.put.virtuals]). *)

From Stdlib Require Import NArith Ascii String List Lia.
From Stdlib Require Import HexadecimalString.
From stdpp Require Import base option list gmap.

(** ** Values shared by all parts *)

(** An allocation made by [new uint8_t[n]]. *)
Definition loc := positive.

(** The name of a variable of type [shared_buf]. *)
Definition handle := nat.

(** [std::out_of_range], with its [what()] text. *)
Inductive exn : Type :=
| out_of_range (what : string).

(** What evaluating an expression gives: a value, a thrown exception, or
    undefined behaviour (a null or out-of-bounds raw access). *)
Inductive outcome (A : Type) : Type :=
| Ok (a : A)
| Throw (e : exn)
| Undefined.
Arguments Ok {A} a.
Arguments Throw {A} e.
Arguments Undefined {A}.

(** A [uint8_t&]: the base pointer it was computed from and the offset. *)
Record ref : Type := Ref { ref_base : option loc; ref_off : N }.

(** ** [size_t] *)

Section size_t.
Variable w : N.

(** The value an unsigned [w]-bit computation keeps. *)
Definition wrap (n : N) : N := (n mod 2 ^ w)%N.

(** [n] is a value of type [size_t]. *)
Definition is_size_t (n : N) : Prop := (n < 2 ^ w)%N.

(** [a - b] on [size_t]. *)
Definition sub_sz (a b : N) : N := wrap (a + 2 ^ w - b).
End size_t.

(** ** The cursor, [shared_buf::iterator_<Val_T>] *)

(** The template argument: [uint8_t] for [iterator], [const uint8_t] for
    [const_iterator]. *)
Inductive val_t : Type := uint8_t | const_uint8_t.

Module iterator_.

Record t (Val_T : val_t) : Type := Mk { base_ptr : option loc; sz : N; i : N }.
Arguments Mk {Val_T} base_ptr sz i.
Arguments base_ptr {Val_T} _.
Arguments sz {Val_T} _.
Arguments i {Val_T} _.

Definition set_i {V} (it : t V) (n : N) : t V :=
  {| base_ptr := base_ptr it; sz := sz it; i := n |}.

(** [iterator_(base_ptr_, sz_, i_ = 0)] *)
Definition ctor {V} (base_ptr_ : option loc) (sz_ i_ : N) : t V :=
  let this := {| base_ptr := base_ptr_; sz := sz_; i := i_ |} in
  if (sz this <? i this)%N then set_i this (sz this) else this.

(** [iterator_(const iterator_& other)] *)
Definition copy_ctor {V} (other : t V) : t V :=
  {| base_ptr := base_ptr other; sz := sz other; i := i other |}.

(** [operator=(const iterator_& other)]; the result is the new [*this]. *)
Definition assign {V} (this other : t V) : t V :=
  {| base_ptr := base_ptr other; sz := sz other; i := i other |}.

Section width.
Variable w : N.

(** [operator++()]; the result is the new [*this]. *)
Definition pre_inc {V} (this : t V) : t V :=
  if (i this <? sz this)%N then set_i this (wrap w (i this + 1)) else this.

(** [operator++(int)]: the returned copy and the new [*this]. *)
Definition post_inc {V} (this : t V) : t V * t V :=
  let res := copy_ctor this in
  (res, pre_inc this).

(** [operator+=(size_t n)]; the result is the new [*this]. *)
Definition add_assign {V} (this : t V) (n : N) : t V :=
  let next := wrap w (i this + n) in
  if (next <? i this)%N || (sz this <? next)%N
  then set_i this (sz this)
  else set_i this next.

(** [operator-(const iterator_& other)] *)
Definition sub {V} (this other : t V) : N :=
  if (i this <? i other)%N then 0%N else sub_sz w (i this) (i other).
End width.

(** [operator==] *)
Definition eq {V} (this other : t V) : bool :=
  bool_decide (base_ptr this = base_ptr other)
  && (sz this =? sz other)%N && (i this =? i other)%N.

(** [operator!=] *)
Definition ne {V} (this other : t V) : bool :=
  bool_decide (base_ptr this ≠ base_ptr other)
  || negb (sz this =? sz other)%N || negb (i this =? i other)%N.

(** [operator*()] *)
Definition deref {V} (this : t V) : outcome ref :=
  if (i this <? sz this)%N
  then Ok (Ref (base_ptr this) (i this))
  else Throw (out_of_range "shared_buf::iterator_::operator* : invalid").

(** [ptr()] *)
Definition ptr {V} (this : t V) : outcome ref :=
  if (i this <? sz this)%N
  then Ok (Ref (base_ptr this) (i this))
  else Throw (out_of_range "shared_buf::iterator_::ptr() : invalid").

(** [operator iterator_<const Val_T>()] *)
Definition to_const {V} (this : t V) : t const_uint8_t :=
  ctor (base_ptr this) (sz this) (i this).

(** The cursors a program can hold: made by the constructor, then changed
    by the member functions. *)
Inductive reachable (w : N) : forall V, t V -> Prop :=
| r_ctor V p s n : reachable w V (ctor p s n)
| r_copy V it : reachable w V it -> reachable w V (copy_ctor it)
| r_assign V it other :
    reachable w V it -> reachable w V other -> reachable w V (assign it other)
| r_pre_inc V it : reachable w V it -> reachable w V (pre_inc w it)
| r_post_inc_res V it : reachable w V it -> reachable w V (fst (post_inc w it))
| r_post_inc_this V it : reachable w V it -> reachable w V (snd (post_inc w it))
| r_add_assign V it n : reachable w V it -> reachable w V (add_assign w it n)
| r_to_const V it : reachable w V it -> reachable w const_uint8_t (to_const it).

End iterator_.

(** The cursor of [src/unnamed/part_001], the earliest revision of the header
    ([class iterator], with the field called [size]). *)
Module part_001.

Record iterator : Type := Mk { base_ptr : option loc; size : N; i : N }.

(** [iterator(base_ptr_, size_, i_ = 0)]: the body is empty. *)
Definition ctor (base_ptr_ : option loc) (size_ i_ : N) : iterator :=
  {| base_ptr := base_ptr_; size := size_; i := i_ |}.

(** [operator++()] *)
Definition pre_inc (w : N) (this : iterator) : iterator :=
  if (i this <? size this)%N
  then {| base_ptr := base_ptr this; size := size this; i := wrap w (i this + 1) |}
  else this.

(** [operator!=] *)
Definition ne (this other : iterator) : bool :=
  bool_decide (base_ptr this ≠ base_ptr other)
  || negb (size this =? size other)%N || negb (i this =? i other)%N.

(** [operator==] *)
Definition eq (this other : iterator) : bool :=
  bool_decide (base_ptr this = base_ptr other)
  && (size this =? size other)%N && (i this =? i other)%N.

(** [operator++(int)]: the returned copy and the new [*this]. *)
Definition post_inc (w : N) (this : iterator) : iterator * iterator :=
  let res := {| base_ptr := base_ptr this; size := size this; i := i this |} in
  (res, pre_inc w this).

(** [operator*()] *)
Definition deref (this : iterator) : outcome ref :=
  if (i this <? size this)%N
  then Ok (Ref (base_ptr this) (i this))
  else Throw (out_of_range "shared_buf::iterator::operator* : invalid").

(** [begin()] and [end()] of a buffer whose members are [ptr] and [size]. *)
Definition begin_ (ptr : option loc) (size : N) : iterator := ctor ptr size 0.
Definition end_ (ptr : option loc) (size : N) : iterator := ctor ptr size size.

(** The cursors a program that only uses [begin()], [end()], copies and
    [operator++] can hold. *)
Inductive walked (w : N) (ptr : option loc) (size : N) : iterator -> Prop :=
| w_begin : walked w ptr size (begin_ ptr size)
| w_end : walked w ptr size (end_ ptr size)
| w_pre_inc it : walked w ptr size it -> walked w ptr size (pre_inc w it)
| w_post_inc_res it : walked w ptr size it -> walked w ptr size (fst (post_inc w it))
| w_post_inc_this it : walked w ptr size it -> walked w ptr size (snd (post_inc w it)).

End part_001.

(** ** The output sink, [std::ostream] *)

(** The bits of [std::ios_base::fmtflags], with the values libstdc++ gives
    them (only their being distinct bits matters). *)
Module ios_base.
Definition boolalpha : N := 1.
Definition dec : N := 2.
Definition fixed : N := 4.
Definition hex : N := 8.
Definition internal : N := 16.
Definition left : N := 32.
Definition oct : N := 64.
Definition right : N := 128.
Definition scientific : N := 256.
Definition showbase : N := 512.
Definition showpoint : N := 1024.
Definition showpos : N := 2048.
Definition skipws : N := 4096.
Definition unitbuf : N := 8192.
Definition uppercase : N := 16384.
Definition adjustfield : N := N.lor left (N.lor right internal).
Definition basefield : N := N.lor dec (N.lor oct hex).
Definition floatfield : N := N.lor scientific fixed.
End ios_base.

Module ostream.

(** The formatting state of a stream ([flags()], [width()], [precision()],
    [fill()]) and the characters written to it so far.  The stream is
    taken to be good and to carry the classic locale. *)
Record t : Type := Mk {
  flags : N;
  width : Z;
  precision : Z;
  fill : ascii;
  out : list ascii
}.

Definition with_flags (os : t) (f : N) : t :=
  {| flags := f; width := width os; precision := precision os;
     fill := fill os; out := out os |}.

(** [os.flags(f)] *)
Definition set_flags (os : t) (f : N) : t := with_flags os f.

(** [os.setf(fl, mask)] *)
Definition setf (os : t) (fl mask : N) : t :=
  with_flags os (N.lor (N.ldiff (flags os) mask) (N.land fl mask)).

(** [os << std::resetiosflags(mask)] *)
Definition resetiosflags (mask : N) (os : t) : t := setf os 0 mask.

(** [os << std::hex] *)
Definition hex (os : t) : t := setf os ios_base.hex ios_base.basefield.

Definition has (os : t) (bit : N) : bool := negb (N.land (flags os) bit =? 0)%N.

(** The fill characters a sequence of [len] characters is padded with. *)
Definition padding (os : t) (len : nat) : list ascii :=
  replicate (Z.to_nat (width os - Z.of_nat len)) (fill os).

(** The characters [text] reach the sink and the field width is used
    up. *)
Definition emit (os : t) (text : list ascii) : t :=
  {| flags := flags os; width := 0; precision := precision os;
     fill := fill os; out := out os ++ text |}.

(** Writing a formatted sequence whose first [pre] characters are a sign
    or a base prefix: padded to [width()], after the sequence for [left],
    after the prefix for [internal], before it otherwise; then
    [width(0)]. *)
Definition insert (os : t) (pre : nat) (seq : list ascii) : t :=
  let fills := padding os (length seq) in
  let adjust := N.land (flags os) ios_base.adjustfield in
  let text :=
    if (adjust =? ios_base.left)%N then seq ++ fills
    else if (adjust =? ios_base.internal)%N
         then take pre seq ++ fills ++ drop pre seq
         else fills ++ seq in
  emit os text.

(** [os << c] for a [char] *)
Definition put_char (os : t) (c : ascii) : t := insert os 0 [c].

Definition digit (upper : bool) (d : N) : ascii :=
  ascii_of_N (if (d <? 10)%N then 48 + d
              else if upper then 55 + d else 87 + d).

(** The digits of [n] in base [base], most significant first. *)
Fixpoint digits_from (fuel : nat) (base : N) (upper : bool) (n : N)
    (acc : list ascii) : list ascii :=
  let acc' := digit upper (n mod base) :: acc in
  match fuel with
  | O => acc'
  | S fuel' =>
      if (n / base =? 0)%N then acc'
      else digits_from fuel' base upper (n / base) acc'
  end.

Definition digits (base : N) (upper : bool) (n : N) : list ascii :=
  digits_from (N.size_nat n) base upper n [].

(** [os << v] for an [int] that is not negative, as [num_put] writes it:
    the base from [basefield], [0x] or [0] in front of a non-zero value
    with [showbase], capitals with [uppercase], [+] with [showpos] in
    decimal. *)
Definition put_int (os : t) (v : N) : t :=
  let base := N.land (flags os) ios_base.basefield in
  let upper := has os ios_base.uppercase in
  let prefix :=
    if (base =? ios_base.hex)%N then
      if has os ios_base.showbase && negb (v =? 0)%N
      then [ "0"%char; if upper then "X"%char else "x"%char ] else []
    else if (base =? ios_base.oct)%N then
      if has os ios_base.showbase && negb (v =? 0)%N then [ "0"%char ] else []
    else
      if has os ios_base.showpos then [ "+"%char ] else [] in
  let radix :=
    if (base =? ios_base.hex)%N then 16%N
    else if (base =? ios_base.oct)%N then 8%N else 10%N in
  insert os (length prefix) (prefix ++ digits radix upper v).

(** [os << s] for a character string *)
Definition put_str (os : t) (s : string) : t := insert os 0 (list_ascii_of_string s).

(** [os << std::endl]: a new line, written unformatted. *)
Definition endl (os : t) : t :=
  {| flags := flags os; width := width os; precision := precision os;
     fill := fill os; out := out os ++ [ascii_of_N 10] |}.

(** A sink switched to plain hexadecimal with no field width pending. *)
Definition plain_hex (os : t) : Prop := flags os = ios_base.hex /\ width os = 0%Z.

(** The formatting state of a sink. *)
Definition fmt (os : t) : N * Z * Z * ascii :=
  (flags os, width os, precision os, fill os).

(** A sink as [std::cout] starts out, with nothing written yet. *)
Definition fresh_sink : t :=
  {| flags := N.lor ios_base.skipws ios_base.dec; width := 0; precision := 6;
     fill := " "%char; out := [] |}.

(** The same after [<< std::setw(6) << std::setfill('*')]. *)
Definition wide_sink : t :=
  {| flags := N.lor ios_base.skipws ios_base.dec; width := 6; precision := 6;
     fill := "*"%char; out := [] |}.

(** The same after [<< std::uppercase << std::showbase << std::left]. *)
Definition loud_sink : t :=
  {| flags := N.lor (N.lor ios_base.skipws ios_base.dec)
                    (N.lor ios_base.uppercase (N.lor ios_base.showbase ios_base.left));
     width := 0; precision := 6; fill := " "%char; out := [] |}.

End ostream.

(** ** The buffer, [shared_buf] *)

Module shared_buf.

(** The member variables. *)
Record t : Type := Mk { ptr : option loc; sz : N }.

(** The control block and the array a [shared_ptr<uint8_t[]>] owns. *)
Record block : Type := Block { use_count : N; bytes : list Byte.byte }.

Record state : Type := State {
  heap : gmap loc block;
  objs : gmap handle t
}.

Inductive result (A : Type) : Type :=
| Ret (a : A) (s : state)
| Raise (e : exn) (s : state)
| UB
| NoFuel.
Arguments Ret {A} a s.
Arguments Raise {A} e s.
Arguments UB {A}.
Arguments NoFuel {A}.

Definition M (A : Type) : Type := state -> result A.

Definition ret {A} (a : A) : M A := fun s => Ret a s.

Definition bind {A B} (m : M A) (k : A -> M B) : M B :=
  fun s =>
    match m s with
    | Ret a s' => k a s'
    | Raise e s' => Raise e s'
    | UB => UB
    | NoFuel => NoFuel
    end.

Definition throw {A} (e : exn) : M A := fun s => Raise e s.
Definition undefined {A} : M A := fun _ => UB.
Definition no_fuel {A} : M A := fun _ => NoFuel.

Definition lift {A} (o : outcome A) : M A :=
  match o with
  | Ok a => ret a
  | Throw e => throw e
  | Undefined => undefined
  end.

Notation "'let*' x ':=' m 'in' k" := (bind m (fun x => k))
  (at level 10, x name, m at level 100, k at level 200).
Notation "m ';;' k" := (bind m (fun _ => k))
  (at level 100, k at level 200, right associativity).

(** *** Objects *)

(** Reading the members of the object called [h]. *)
Definition get (h : handle) : M t :=
  fun s => match objs s !! h with Some b => Ret b s | None => UB end.

Definition put (h : handle) (b : t) : M unit :=
  fun s => Ret tt {| heap := heap s; objs := <[h := b]> (objs s) |}.

(** Assigning to the raw pointer held by member [ptr] of [h]. *)
Definition set_ptr (h : handle) (p : option loc) : M unit :=
  let* b := get h in put h {| ptr := p; sz := sz b |}.

(** [h.sz = n] *)
Definition set_sz (h : handle) (n : N) : M unit :=
  let* b := get h in put h {| ptr := ptr b; sz := n |}.

(** Storage for a new object called [h], members not yet initialised to
    anything but the empty pointer. *)
Definition declare (h : handle) : M unit :=
  fun s => match objs s !! h with
           | None => Ret tt {| heap := heap s;
                               objs := <[h := {| ptr := None; sz := 0 |}]> (objs s) |}
           | Some _ => UB
           end.

Definition forget (h : handle) : M unit :=
  fun s => Ret tt {| heap := heap s; objs := delete h (objs s) |}.

(** *** [std::shared_ptr<uint8_t[]>] *)

(** [shared_ptr(new uint8_t[n])]: a new array, owned once.  Its contents
    are whatever [junk] holds. *)
Definition sp_new (n : N) (junk : list Byte.byte) : M (option loc) :=
  fun s =>
    let l := fresh (dom (heap s)) in
    Ret (Some l)
        {| heap := <[l := {| use_count := 1;
                             bytes := resize (N.to_nat n) Byte.x00 junk |}]> (heap s);
           objs := objs s |}.

(** One more [shared_ptr] holds [p]. *)
Definition sp_acquire (p : option loc) : M unit :=
  fun s =>
    match p with
    | None => Ret tt s
    | Some l =>
        match heap s !! l with
        | Some blk =>
            Ret tt {| heap := <[l := {| use_count := use_count blk + 1;
                                        bytes := bytes blk |}]> (heap s);
                      objs := objs s |}
        | None => UB
        end
    end.

(** A [shared_ptr] holding [p] goes away; the last one deletes the
    array. *)
Definition sp_release (p : option loc) : M unit :=
  fun s =>
    match p with
    | None => Ret tt s
    | Some l =>
        match heap s !! l with
        | Some blk =>
            if (use_count blk <=? 1)%N
            then Ret tt {| heap := delete l (heap s); objs := objs s |}
            else Ret tt {| heap := <[l := {| use_count := use_count blk - 1;
                                             bytes := bytes blk |}]> (heap s);
                           objs := objs s |}
        | None => UB
        end
    end.

(** [this->ptr = other.ptr], which the standard defines as
    [shared_ptr(other.ptr).swap(this->ptr)]. *)
Definition sp_copy_assign (this other : handle) : M unit :=
  let* o := get other in
  let tmp := ptr o in
  sp_acquire tmp ;;
  let* b := get this in
  let old := ptr b in
  set_ptr this tmp ;;
  sp_release old.

(** [this->ptr = std::move(other.ptr)], which the standard defines as
    [shared_ptr(std::move(other.ptr)).swap(this->ptr)]. *)
Definition sp_move_assign (this other : handle) : M unit :=
  let* o := get other in
  let tmp := ptr o in
  set_ptr other None ;;
  let* b := get this in
  let old := ptr b in
  set_ptr this tmp ;;
  sp_release old.

(** [ptr[i]]: no check is made. *)
Definition sp_index (p : option loc) (i : N) : ref := Ref p i.

(** Reading and writing through a [uint8_t&]. *)
Definition read (r : ref) : M Byte.byte :=
  fun s =>
    match ref_base r with
    | None => UB
    | Some l =>
        match heap s !! l with
        | Some blk =>
            match bytes blk !! N.to_nat (ref_off r) with
            | Some v => Ret v s
            | None => UB
            end
        | None => UB
        end
    end.

Definition write (r : ref) (v : Byte.byte) : M unit :=
  fun s =>
    match ref_base r with
    | None => UB
    | Some l =>
        match heap s !! l with
        | Some blk =>
            if bool_decide (N.to_nat (ref_off r) < length (bytes blk))%nat
            then Ret tt {| heap := <[l := {| use_count := use_count blk;
                                             bytes := <[N.to_nat (ref_off r) := v]> (bytes blk) |}]>
                                     (heap s);
                           objs := objs s |}
            else UB
        | None => UB
        end
    end.

(** *** Member functions *)

(** [shared_buf(size_t sz_)], constructing the object called [this]. *)
Definition ctor (this : handle) (sz_ : N) (junk : list Byte.byte) : M unit :=
  declare this ;;
  set_sz this sz_ ;;
  let* b := get this in
  let* tmp := sp_new (sz b) junk in
  let old := ptr b in
  set_ptr this tmp ;;
  sp_release old.

(** [shared_buf(const shared_buf& other)] *)
Definition copy_ctor (this other : handle) : M unit :=
  let* o := get other in
  sp_acquire (ptr o) ;;
  declare this ;;
  put this {| ptr := ptr o; sz := sz o |} ;;
  sp_copy_assign this other ;;
  let* o := get other in
  set_sz this (sz o).

(** [operator=(const shared_buf& other)] *)
Definition copy_assign (this other : handle) : M unit :=
  sp_copy_assign this other ;;
  let* o := get other in
  set_sz this (sz o).

(** [shared_buf(shared_buf&& other)] *)
Definition move_ctor (this other : handle) : M unit :=
  let* o := get other in
  set_ptr other None ;;
  declare this ;;
  let* o' := get other in
  put this {| ptr := ptr o; sz := sz o' |} ;;
  set_sz other 0.

(** [operator=(shared_buf&& other)] *)
Definition move_assign (this other : handle) : M unit :=
  sp_move_assign this other ;;
  let* o := get other in
  set_sz this (sz o) ;;
  set_sz other 0.

(** The destructor the compiler writes: the member [ptr] is destroyed. *)
Definition dtor (this : handle) : M unit :=
  let* b := get this in
  sp_release (ptr b) ;;
  forget this.

Definition index_what : string := "shared_buf::operator[] : index out of range".

(** [uint8_t& operator[](size_t i)] *)
Definition index (this : handle) (i : N) : M ref :=
  let* b := get this in
  if (i <? sz b)%N
  then ret (sp_index (ptr b) i)
  else throw (out_of_range index_what).

(** [uint8_t operator[](size_t i) const] *)
Definition index_const (this : handle) (i : N) : M Byte.byte :=
  let* b := get this in
  if (i <? sz b)%N
  then read (sp_index (ptr b) i)
  else throw (out_of_range index_what).

(** [size()] *)
Definition size (this : handle) : M N :=
  let* b := get this in ret (sz b).

(** [&ptr[0]]: [shared_ptr::operator[]] asks for [get() != nullptr], so on
    an empty pointer the behaviour is undefined; otherwise the address is
    the one the pointer holds. *)
Definition sp_addr0 (p : option loc) : M (option loc) :=
  match p with
  | Some _ => ret (ref_base (sp_index p 0))
  | None => undefined
  end.

(** [begin()] and [end()], for either constness. *)
Definition begin_ {V} (this : handle) : M (iterator_.t V) :=
  let* b := get this in
  let* base := sp_addr0 (ptr b) in
  ret (iterator_.ctor base (sz b) 0).

Definition end_ {V} (this : handle) : M (iterator_.t V) :=
  let* b := get this in
  let* base := sp_addr0 (ptr b) in
  ret (iterator_.ctor base (sz b) (sz b)).

Section width.
Variable w : N.

(** The loop of [print], entered with loop variable [i]. *)
Fixpoint print_loop (fuel : nat) (this : handle) (i : N)
    (stream : ostream.t) : M ostream.t :=
  let* b := get this in
  if (i <? sz b)%N then
    match fuel with
    | O => no_fuel
    | S fuel' =>
        let stream :=
          if negb (i =? 0)%N then ostream.put_char stream ","%char
          else stream in
        let* v := read (sp_index (ptr b) i) in
        let stream := ostream.put_int stream (Byte.to_N v) in
        let stream := ostream.put_char stream "h"%char in
        print_loop fuel' this (wrap w (i + 1)) stream
    end
  else ret stream.

(** [print(std::ostream& stream) const]; the result is the stream
    afterwards. *)
Definition print (this : handle) (stream : ostream.t) : M ostream.t :=
  let orig_stream_flags := ostream.flags stream in
  let stream := ostream.resetiosflags orig_stream_flags stream in
  let stream := ostream.put_char stream "["%char in
  let stream := ostream.hex stream in
  let* b := get this in
  let* stream := print_loop (N.to_nat (sz b)) this 0 stream in
  let stream := ostream.put_char stream "]"%char in
  let stream := ostream.set_flags stream orig_stream_flags in
  ret stream.

(** [operator<<(std::ostream& stream, const xu::shared_buf& buf)] *)
Definition shl (stream : ostream.t) (buf : handle) : M ostream.t := print buf stream.

(** [for (auto& x : buf) body], that is
    [for (auto it = buf.begin(), e = buf.end(); it != e; ++it) { auto& x = *it; body }],
    with [acc] for the variables the body updates. *)
Fixpoint range_loop {V A} (fuel : nat) (it e : iterator_.t V)
    (body : ref -> A -> M A) (acc : A) : M A :=
  if iterator_.ne it e then
    match fuel with
    | O => no_fuel
    | S fuel' =>
        let* x := lift (iterator_.deref it) in
        let* acc' := body x acc in
        range_loop fuel' (iterator_.pre_inc w it) e body acc'
    end
  else ret acc.

Definition range_for {V A} (this : handle) (body : ref -> A -> M A) (acc : A) : M A :=
  let* it := @begin_ V this in
  let* e := @end_ V this in
  range_loop (N.to_nat (iterator_.sz e)) it e body acc.

(** The loop body that only notes which bytes it was handed. *)
Definition visit (x : ref) (seen : list ref) : M (list ref) := ret (seen ++ [x]).
End width.

(** The cursors over the buffer [h] of store [s] that a program can hold:
    those [begin()] and [end()] return, and what copy, assignment, [++],
    [+=] and the conversion to a read-only cursor make of them. *)
Inductive cursor_of (w : N) (s : state) (h : handle) : forall V, iterator_.t V -> Prop :=
| c_begin V it : @begin_ V h s = Ret it s -> cursor_of w s h V it
| c_end V it : @end_ V h s = Ret it s -> cursor_of w s h V it
| c_copy V it : cursor_of w s h V it -> cursor_of w s h V (iterator_.copy_ctor it)
| c_assign V it other :
    cursor_of w s h V it -> cursor_of w s h V other ->
    cursor_of w s h V (iterator_.assign it other)
| c_pre_inc V it : cursor_of w s h V it -> cursor_of w s h V (iterator_.pre_inc w it)
| c_post_inc_res V it :
    cursor_of w s h V it -> cursor_of w s h V (fst (iterator_.post_inc w it))
| c_post_inc_this V it :
    cursor_of w s h V it -> cursor_of w s h V (snd (iterator_.post_inc w it))
| c_add_assign V it n :
    cursor_of w s h V it -> cursor_of w s h V (iterator_.add_assign w it n)
| c_to_const V it :
    cursor_of w s h V it -> cursor_of w s h const_uint8_t (iterator_.to_const it).

(** The loop body that reads the byte it was handed:
    [for (auto& x : buf) seen.push_back(x);]. *)
Definition read_into (x : ref) (seen : list Byte.byte) : M (list Byte.byte) :=
  let* v := read x in ret (seen ++ [v]).

(** The loop body that stores into the byte it was handed a value got from
    the variables it updates: [for (auto& x : buf) { x = g(acc); acc = f(acc); }];
    the loop of the test program, [b = ++counter], is the case of
    [g counter = counter + 1] as a byte and [f counter = counter + 1]. *)
Definition fill_with {A} (g : A -> Byte.byte) (f : A -> A) (x : ref) (acc : A) : M A :=
  write x (g acc) ;; ret (f acc).

(** *** Owner counts, stated on the heap *)

(** The heap after one more ([up]) or one fewer ([down]) owner of the
    allocation [p], as [sp_acquire] and [sp_release] leave it. *)
Definition up (p : option loc) (hp : gmap loc block) : gmap loc block :=
  match p with
  | None => hp
  | Some l =>
      match hp !! l with
      | Some blk => <[l := {| use_count := use_count blk + 1; bytes := bytes blk |}]> hp
      | None => hp
      end
  end.

Definition down (p : option loc) (hp : gmap loc block) : gmap loc block :=
  match p with
  | None => hp
  | Some l =>
      match hp !! l with
      | Some blk =>
          if (use_count blk <=? 1)%N then delete l hp
          else <[l := {| use_count := use_count blk - 1; bytes := bytes blk |}]> hp
      | None => hp
      end
  end.

(** Whether the object [b], if there is one, holds allocation [l]. *)
Definition holds (b : option t) (l : loc) : nat :=
  match b with
  | Some b => if decide (ptr b = Some l) then 1 else 0
  | None => 0
  end.

(** *** Programs the properties are stated on *)

(** [p] is empty or points at an allocation of [hp]. *)
Definition live (hp : gmap loc block) (p : option loc) : Prop :=
  forall l, p = Some l -> is_Some (hp !! l).

(** [wr[i] = v;] then [rd[i]], read through the [const] overload and
    through the reference the other overload returns. *)
Definition write_read (wr rd : handle) (i : N) (v : Byte.byte)
    : M (Byte.byte * Byte.byte) :=
  (let* r := index wr i in write r v) ;;
  let* x := index_const rd i in
  let* r' := index rd i in
  let* y := read r' in
  ret (x, y).

(** The bytes an object offers: the first [sz] bytes of its array. *)
Definition contents (s : state) (b : t) : list Byte.byte :=
  match ptr b with
  | None => []
  | Some l =>
      match heap s !! l with
      | Some blk => take (N.to_nat (sz b)) (bytes blk)
      | None => []
      end
  end.

(** *** The dump, as the documentation words it *)

(** One byte in lowercase hexadecimal without leading zeros, by the
    Standard Library's printer of hexadecimal numbers. *)
Definition hex_of_byte (v : Byte.byte) : list ascii :=
  list_ascii_of_string (NilZero.string_of_uint (N.to_hex_uint (Byte.to_N v))).

(** Reading lowercase hexadecimal digits back; capitals are no digits
    here. *)
Definition hex_digit_value (c : ascii) : option N :=
  let n := N_of_ascii c in
  if (48 <=? n)%N && (n <=? 57)%N then Some (n - 48)%N
  else if (97 <=? n)%N && (n <=? 102)%N then Some (n - 87)%N
  else None.

Definition hex_value (ds : list ascii) : option N :=
  match ds with
  | [] => None
  | _ =>
      foldl (fun acc c =>
               match acc, hex_digit_value c with
               | Some a, Some d => Some (16 * a + d)%N
               | _, _ => None
               end) (Some 0%N) ds
  end.

(** An element: the digits and the letter [h]. *)
Definition item (v : Byte.byte) : list ascii := hex_of_byte v ++ ["h"%char].

(** Elements with a comma between neighbours. *)
Definition join_commas (xs : list (list ascii)) : list ascii :=
  match xs with
  | [] => []
  | x :: rest => x ++ concat (map (fun y => ","%char :: y) rest)
  end.

Definition dump (bs : list Byte.byte) : list ascii :=
  "["%char :: join_commas (map item bs) ++ ["]"%char].

(** The state of an object after its contents were moved away. *)
Definition moved_from : t := {| ptr := None; sz := 0 |}.


(** *** Stores to try things on *)

(** After [shared_buf a(3);] and filling it with 1, 2, 3: object 0. *)
Definition one_buffer : state :=
  {| heap := {[ 1%positive := {| use_count := 1;
                                 bytes := [Byte.x01; Byte.x02; Byte.x03] |} ]};
     objs := {[ 0%nat := {| ptr := Some 1%positive; sz := 3 |} ]} |}.

(** After a second buffer of one byte was made: object 1. *)
Definition two_buffers : state :=
  {| heap := <[ 2%positive := {| use_count := 1; bytes := [Byte.xff] |} ]>
               (heap one_buffer);
     objs := <[ 1%nat := {| ptr := Some 2%positive; sz := 1 |} ]> (objs one_buffer) |}.

(** *** Well-formed stores *)

(** How many objects hold allocation [l]. *)
Definition owners (m : gmap handle t) (l : loc) : nat :=
  base.size (filter (fun kv : handle * t => ptr kv.2 = Some l) m).

(** An object is either empty, or holds a live array of [sz] bytes, or
    holds a live array while reporting no bytes. *)
Definition buf_ok (w : N) (hp : gmap loc block) (b : t) : Prop :=
  is_size_t w (sz b) /\
  match ptr b with
  | None => sz b = 0%N
  | Some l =>
      match hp !! l with
      | Some blk => sz b = 0%N \/ sz b = N.of_nat (length (bytes blk))
      | None => False
      end
  end.

(** Every object is in order and every allocation counts its owners. *)
Definition wf (w : N) (s : state) : Prop :=
  map_Forall (fun _ b => buf_ok w (heap s) b) (objs s)
  /\ map_Forall (fun l blk => use_count blk = N.of_nat (owners (objs s) l)
                              /\ (0 < use_count blk)%N) (heap s).

(** The store before any object exists. *)
Definition empty : state := {| heap := ∅; objs := ∅ |}.

(** The same, read allocation by allocation and object by object: an
    allocation counts its owners and has at least one, and what is not
    allocated has none. *)
Definition counted (s : state) (l : loc) : Prop :=
  match heap s !! l with
  | Some blk => use_count blk = N.of_nat (owners (objs s) l) /\ (0 < owners (objs s) l)%nat
  | None => owners (objs s) l = 0%nat
  end.

Definition sized (w : N) (hp : gmap loc block) (b : t) : Prop :=
  is_size_t w (sz b)
  /\ (ptr b = None -> sz b = 0%N)
  /\ (forall l blk, ptr b = Some l -> hp !! l = Some blk ->
        sz b = 0%N \/ sz b = N.of_nat (length (bytes blk))).

(** What is allocated in [hp'] was allocated in [hp], with the same
    bytes. *)
Definition same_bytes (hp hp' : gmap loc block) : Prop :=
  forall l blk', hp' !! l = Some blk' ->
    exists blk, hp !! l = Some blk /\ bytes blk = bytes blk'.

(** The stores a program can get to: from no objects at all, by the member
    functions and by writing through [operator[]]. *)
Inductive built (w : N) : state -> Prop :=
| built_empty : built w empty
| built_ctor s s' this n junk :
    built w s -> is_size_t w n -> ctor this n junk s = Ret tt s' -> built w s'
| built_copy_ctor s s' this other :
    built w s -> copy_ctor this other s = Ret tt s' -> built w s'
| built_copy_assign s s' this other :
    built w s -> copy_assign this other s = Ret tt s' -> built w s'
| built_move_ctor s s' this other :
    built w s -> move_ctor this other s = Ret tt s' -> built w s'
| built_move_assign s s' this other :
    built w s -> move_assign this other s = Ret tt s' -> built w s'
| built_dtor s s' this :
    built w s -> dtor this s = Ret tt s' -> built w s'
| built_write s s' this i v :
    built w s -> (let* r := index this i in write r v) s = Ret tt s' -> built w s'.

#[global] Instance buf_ok_dec w hp b : Decision (buf_ok w hp b).
Proof.
  unfold buf_ok, is_size_t.
  destruct (ptr b); [destruct (hp !! _)|]; apply _.
Defined.

#[global] Instance wf_dec w s : Decision (wf w s).
Proof. unfold wf. apply _. Defined.

End shared_buf.

(** [operator[] const] of [src/unnamed/part_000] (and of part_001):
    [return operator[](i);].  In a [const] member function [*this] is
    [const], so the call resolves to the [const] overload, the function
    itself. *)
Module part_000.

Fixpoint index_const (fuel : nat) (this : handle) (i : N)
    : shared_buf.M Byte.byte :=
  match fuel with
  | O => shared_buf.no_fuel
  | S fuel' => index_const fuel' this i
  end.

End part_000.

(** ** The test program, [test/test_shared_buf.cpp] *)

Module test_shared_buf.
Import shared_buf.

(** The conversion of an [int] to [uint8_t]. *)
Definition to_uint8 (n : N) : Byte.byte :=
  match Byte.of_N (n mod 256) with Some v => v | None => Byte.x00 end.

(** [main], with [buf], [buf_copy] and [buf_moved] as objects 0, 1 and 2;
    the result is [std::cout] at the end. *)
Definition main (w : N) (junk : list Byte.byte) (cout : ostream.t) : M ostream.t :=
  ctor 0 10 junk ;;
  let counter := 0%N in
  let* counter :=
    @range_for w uint8_t N 0
      (fun b counter => let counter := (counter + 1)%N in
                        write b (to_uint8 counter) ;; ret counter)
      counter in
  let* cout := shl w cout 0 in
  let cout := ostream.endl cout in
  copy_ctor 1 0 ;;
  (let* r := index 1 2 in write r (to_uint8 0)) ;;
  move_ctor 2 1 ;;
  let* cout := shl w (ostream.put_str cout "buf=") 0 in
  let cout := ostream.endl cout in
  let* cout := shl w (ostream.put_str cout "buf=") 1 in
  let cout := ostream.endl cout in
  let* cout := shl w (ostream.put_str cout "buf=") 2 in
  let cout := ostream.endl cout in
  ret cout.

(** The lines of a text. *)
Fixpoint lines_from (cur : list ascii) (text : list ascii) : list string :=
  match text with
  | [] => match cur with [] => [] | _ => [string_of_list_ascii cur] end
  | c :: rest =>
      if (N_of_ascii c =? 10)%N then string_of_list_ascii cur :: lines_from [] rest
      else lines_from (cur ++ [c]) rest
  end.

Definition lines (os : ostream.t) : list string := lines_from [] (ostream.out os).

End test_shared_buf.

(** ** Facts about [size_t] *)

Lemma wrap_le w n : (wrap w n <= n)%N.
Proof. unfold wrap. apply N.Div0.mod_le. Qed.

Lemma wrap_small w n : is_size_t w n -> wrap w n = n.
Proof. unfold wrap, is_size_t. intros. by apply N.mod_small. Qed.

Lemma pow2_pos w : (0 < 2 ^ w)%N.
Proof. apply N.neq_0_lt_0, N.pow_nonzero. discriminate. Qed.

(** An addition that leaves the range wraps to less than either operand. *)
Lemma wrap_add_overflow w a b :
  is_size_t w a -> is_size_t w b -> (2 ^ w <= a + b)%N ->
  wrap w (a + b) = (a + b - 2 ^ w)%N.
Proof.
  unfold wrap, is_size_t. intros Ha Hb Hov.
  symmetry. apply (N.mod_unique _ _ 1%N); lia.
Qed.

Lemma sub_sz_le w a b :
  is_size_t w a -> (b <= a)%N -> sub_sz w a b = (a - b)%N.
Proof.
  unfold sub_sz, wrap, is_size_t. intros Ha Hb.
  symmetry. apply (N.mod_unique _ _ 1%N); lia.
Qed.

(** ** Cursors *)

Section cursor_facts.
Import iterator_.
Variable w : N.

Lemma t_ext V (a b : t V) :
  base_ptr a = base_ptr b -> sz a = sz b -> i a = i b -> a = b.
Proof. destruct a, b; simpl; congruence. Qed.

Lemma ctor_position V (p : option loc) (s n : N) :
  i (@ctor V p s n) = N.min n s /\ sz (@ctor V p s n) = s
  /\ base_ptr (@ctor V p s n) = p.
Proof.
  unfold ctor; simpl. destruct (N.ltb_spec s n); simpl; repeat split; lia.
Qed.

Lemma pre_inc_bounds V (it : t V) :
  (i it <= sz it)%N -> (i (pre_inc w it) <= sz (pre_inc w it))%N.
Proof.
  intros Hle. unfold pre_inc.
  destruct (N.ltb_spec (i it) (sz it)); simpl; [|done].
  pose proof (wrap_le w (i it + 1)). lia.
Qed.

Lemma add_assign_bounds V (it : t V) (n : N) :
  (i (add_assign w it n) <= sz (add_assign w it n))%N.
Proof.
  unfold add_assign.
  destruct (N.ltb_spec (wrap w (i it + n)) (i it)); simpl; [lia|].
  destruct (N.ltb_spec (sz it) (wrap w (i it + n))); simpl; lia.
Qed.

(** In the current header every cursor a program can hold has its position
    in [0, sz]: the constructor clamps, and no member function leaves the
    range. *)
Lemma reachable_in_bounds V (it : t V) :
  reachable w V it -> (i it <= sz it)%N.
Proof.
  induction 1 as [V p s n | V it _ IH | V it other _ _ _ IH | V it _ IH
                 | V it _ IH | V it _ IH | V it n _ _ | V it _ _].
  - destruct (ctor_position V p s n) as (-> & -> & _). lia.
  - exact IH.
  - exact IH.
  - by apply pre_inc_bounds.
  - exact IH.
  - by apply pre_inc_bounds.
  - apply add_assign_bounds.
  - unfold to_const.
    destruct (ctor_position const_uint8_t (base_ptr it) (sz it) (i it))
      as (-> & -> & _). lia.
Qed.

(** A cursor at position [sz] is the one [end()] builds, and cannot be
    dereferenced. *)
Lemma end_sentinel V (it : t V) :
  (i it <= sz it)%N ->
  (i it = sz it <-> eq it (ctor (base_ptr it) (sz it) (sz it)) = true)
  /\ (i it = sz it -> exists msg, deref it = Throw (out_of_range msg)).
Proof.
  intros Hle. split.
  - unfold eq. destruct (ctor_position V (base_ptr it) (sz it) (sz it))
      as (-> & -> & ->).
    rewrite bool_decide_eq_true_2 by done. rewrite N.eqb_refl. simpl.
    rewrite N.eqb_eq. lia.
  - intros Heq. unfold deref. rewrite Heq, N.ltb_irrefl. eauto.
Qed.

(** ** Bulk advance *)

(** C5. A cursor at position [p] over a buffer of [sz] bytes, advanced by
    [n] with [operator+=]: the position becomes [p + n] when [p + n] fits
    in [size_t] and does not exceed [sz], and [sz] otherwise; when
    [p + n > sz] the cursor compares equal to the [end()] cursor of its
    buffer. *)
Theorem bulk_advance_clamps V (it : t V) (n : N) :
  is_size_t w (sz it) -> is_size_t w (i it) -> is_size_t w n ->
  ((i it + n < 2 ^ w)%N /\ (i it + n <= sz it)%N ->
     i (add_assign w it n) = (i it + n)%N)
  /\ (~ ((i it + n < 2 ^ w)%N /\ (i it + n <= sz it)%N) ->
     i (add_assign w it n) = sz it)
  /\ ((sz it < i it + n)%N ->
     eq (add_assign w it n) (ctor (base_ptr it) (sz it) (sz it)) = true)
  /\ sz (add_assign w it n) = sz it
  /\ base_ptr (add_assign w it n) = base_ptr it.
Proof.
  intros Hs Hi Hn.
  assert (Hfield : sz (add_assign w it n) = sz it
                   /\ base_ptr (add_assign w it n) = base_ptr it).
  { unfold add_assign. by destruct (_ || _). }
  assert (Hover : ~ ((i it + n < 2 ^ w)%N /\ (i it + n <= sz it)%N) ->
                  i (add_assign w it n) = sz it).
  { intros Hnot. unfold add_assign.
    destruct (N.lt_ge_cases (i it + n) (2 ^ w)) as [Hfit | Hov].
    - rewrite (wrap_small w (i it + n)) by exact Hfit.
      destruct (N.ltb_spec (i it + n) (i it)); [done|]. simpl.
      destruct (N.ltb_spec (sz it) (i it + n)); [done|]. lia.
    - rewrite wrap_add_overflow by done.
      unfold is_size_t in *.
      destruct (N.ltb_spec (i it + n - 2 ^ w) (i it)); [done|]. lia. }
  split; [|split; [exact Hover|split; [|exact Hfield]]].
  - intros [Hfit Hle]. unfold add_assign.
    rewrite (wrap_small w (i it + n)) by exact Hfit.
    destruct (N.ltb_spec (i it + n) (i it)); [lia|]. simpl.
    destruct (N.ltb_spec (sz it) (i it + n)); [lia|]. done.
  - intros Hgt. unfold eq.
    destruct (ctor_position V (base_ptr it) (sz it) (sz it)) as (-> & -> & ->).
    destruct Hfield as [-> ->]. rewrite Hover by lia.
    rewrite bool_decide_eq_true_2 by done. rewrite N.eqb_refl.
    simpl. apply N.eqb_eq. lia.
Qed.

(** ** Single steps *)

Lemma iter_pre_inc_fields V (it : t V) (k : nat) :
  sz (Nat.iter k (pre_inc w) it) = sz it
  /\ base_ptr (Nat.iter k (pre_inc w) it) = base_ptr it.
Proof.
  induction k as [|k [IHs IHb]]; simpl; [done|].
  unfold pre_inc at 1 3. by destruct (_ <? _)%N.
Qed.

Lemma iter_pre_inc_position V (it : t V) (k : nat) :
  is_size_t w (sz it) -> (i it <= sz it)%N ->
  i (Nat.iter k (pre_inc w) it) = N.min (i it + N.of_nat k) (sz it).
Proof.
  intros Hs Hle. induction k as [|k IH]; simpl.
  - lia.
  - destruct (iter_pre_inc_fields V it k) as [Hsz _].
    unfold pre_inc at 1. rewrite Hsz, IH.
    unfold is_size_t in Hs.
    destruct (N.ltb_spec (N.min (i it + N.of_nat k) (sz it)) (sz it)); simpl.
    + rewrite wrap_small by (unfold is_size_t; lia). lia.
    + rewrite IH. lia.
Qed.

(** C6. [operator++] (prefix and postfix) adds one to the position while it
    is below [sz] and does nothing at [sz]; the postfix form returns the
    cursor as it was.  Neither [operator++] nor [operator+=] moves a cursor
    backwards, and [k] increments from [begin()] stand at position
    [min k sz]: positions 0, 1, ..., sz - 1 in order, then [sz] for ever. *)
Theorem advance_saturates V (it : t V) (n : N) (k : nat) :
  is_size_t w (sz it) -> (i it <= sz it)%N ->
  ((i it < sz it)%N -> pre_inc w it = set_i it (i it + 1))
  /\ (i it = sz it -> pre_inc w it = it)
  /\ post_inc w it = (it, pre_inc w it)
  /\ (i it <= i (pre_inc w it))%N
  /\ (i it <= i (add_assign w it n))%N
  /\ i (Nat.iter k (pre_inc w) (@ctor V (base_ptr it) (sz it) 0))
     = N.min (N.of_nat k) (sz it)
  /\ ((sz it <= N.of_nat k)%N ->
      Nat.iter k (pre_inc w) (@ctor V (base_ptr it) (sz it) 0)
      = @ctor V (base_ptr it) (sz it) (sz it)).
Proof.
  intros Hs Hle.
  assert (Hstep : (i it < sz it)%N -> pre_inc w it = set_i it (i it + 1)).
  { intros Hlt. unfold pre_inc.
    destruct (N.ltb_spec (i it) (sz it)); [|lia].
    rewrite wrap_small; [done|]. unfold is_size_t in *. lia. }
  assert (Hstay : i it = sz it -> pre_inc w it = it).
  { intros Heq. unfold pre_inc. by rewrite Heq, N.ltb_irrefl. }
  assert (Hbegin : forall m, i (Nat.iter m (pre_inc w)
                                  (@ctor V (base_ptr it) (sz it) 0))
                             = N.min (N.of_nat m) (sz it)).
  { intros m.
    destruct (ctor_position V (base_ptr it) (sz it) 0) as (Hi0 & Hs0 & _).
    rewrite iter_pre_inc_position; rewrite ?Hs0, ?Hi0; [lia|done|lia]. }
  repeat split.
  - exact Hstep.
  - exact Hstay.
  - unfold post_inc, copy_ctor. by destruct it.
  - destruct (N.lt_ge_cases (i it) (sz it)) as [Hlt | Hge].
    + rewrite Hstep by done. simpl. lia.
    + rewrite Hstay by lia. lia.
  - unfold add_assign.
    destruct (N.ltb_spec (wrap w (i it + n)) (i it)); simpl; [lia|].
    destruct (N.ltb_spec (sz it) (wrap w (i it + n))); simpl; lia.
  - apply Hbegin.
  - intros Hk.
    destruct (iter_pre_inc_fields V (@ctor V (base_ptr it) (sz it) 0) k)
      as [Hsz Hbase].
    specialize (Hbegin k).
    destruct (ctor_position V (base_ptr it) (sz it) 0) as (_ & Hs0 & Hb0).
    destruct (ctor_position V (base_ptr it) (sz it) (sz it)) as (Hi1 & Hs1 & Hb1).
    apply t_ext; [congruence|congruence|lia].
Qed.

(** ** Distance *)

(** C7. For two cursors [a] and [b], [a - b] is the difference of the
    positions when [b] is not ahead of [a], and 0 otherwise; so it is 0
    whenever [a] is not ahead of [b].  (The result has type [size_t] and is
    never negative.) *)
Theorem distance_saturates V (a b : t V) :
  is_size_t w (i a) -> is_size_t w (i b) ->
  ((i b <= i a)%N -> sub w a b = (i a - i b)%N)
  /\ ((i a < i b)%N -> sub w a b = 0%N)
  /\ ((i a <= i b)%N -> sub w a b = 0%N)
  /\ (Z.of_N (sub w a b) = Z.max 0 (Z.of_N (i a) - Z.of_N (i b)))%Z.
Proof.
  intros Ha Hb. unfold sub.
  destruct (N.ltb_spec (i a) (i b)) as [Hlt | Hge].
  - repeat split; intros; lia.
  - rewrite sub_sz_le by done. repeat split; intros; lia.
Qed.
End cursor_facts.

(** ** Running the store operations *)

Section store_facts.
Import shared_buf.

Lemma bind_Ret {A B} (m : M A) (k : A -> M B) s a s' :
  m s = Ret a s' -> bind m k s = k a s'.
Proof. unfold bind. by intros ->. Qed.

Lemma get_Some h b s : objs s !! h = Some b -> get h s = Ret b s.
Proof. unfold get. by intros ->. Qed.

Lemma set_ptr_Some h p b s :
  objs s !! h = Some b ->
  set_ptr h p s
  = Ret tt {| heap := heap s; objs := <[h := {| ptr := p; sz := sz b |}]> (objs s) |}.
Proof. intros Hb. unfold set_ptr. by rewrite (bind_Ret _ _ _ _ _ (get_Some _ _ _ Hb)). Qed.

Lemma set_sz_Some h n b s :
  objs s !! h = Some b ->
  set_sz h n s
  = Ret tt {| heap := heap s; objs := <[h := {| ptr := ptr b; sz := n |}]> (objs s) |}.
Proof. intros Hb. unfold set_sz. by rewrite (bind_Ret _ _ _ _ _ (get_Some _ _ _ Hb)). Qed.

Lemma declare_None h s :
  objs s !! h = None ->
  declare h s
  = Ret tt {| heap := heap s; objs := <[h := {| ptr := None; sz := 0 |}]> (objs s) |}.
Proof. unfold declare. by intros ->. Qed.

(** What [wf] says about one object with bytes to offer. *)
Lemma wf_live w s h b :
  wf w s -> objs s !! h = Some b -> (0 < sz b)%N ->
  exists l blk, ptr b = Some l /\ heap s !! l = Some blk
                /\ sz b = N.of_nat (length (bytes blk))
                /\ (0 < use_count blk)%N.
Proof.
  intros [Hobjs Hheap] Hb Hpos.
  destruct (Hobjs h b Hb) as [_ Hok].
  destruct (ptr b) as [l|]; [|lia].
  destruct (heap s !! l) as [blk|] eqn:Hl; [|done].
  exists l, blk. destruct (Hheap l blk Hl) as [_ Hc].
  repeat split; [done|lia|done].
Qed.

Lemma wf_ptr w s h b l :
  wf w s -> objs s !! h = Some b -> ptr b = Some l ->
  exists blk, heap s !! l = Some blk /\ (0 < use_count blk)%N.
Proof.
  intros [Hobjs Hheap] Hb Hp.
  destruct (Hobjs h b Hb) as [_ Hok]. rewrite Hp in Hok.
  destruct (heap s !! l) as [blk|] eqn:Hl; [|done].
  exists blk. split; [done|]. by destruct (Hheap l blk Hl).
Qed.

(** ** Indexing in the current header *)

(** [operator[]] of the current header, in both forms: it throws
    [std::out_of_range] exactly when [i >= sz], and otherwise gives byte
    [i] of the array; the store is left as it was either way. *)
Lemma index_in_range_iff w s h b (i : N) :
  wf w s -> objs s !! h = Some b ->
  ((sz b <= i)%N ->
     index h i s = Raise (out_of_range index_what) s
     /\ index_const h i s = Raise (out_of_range index_what) s)
  /\ ((i < sz b)%N ->
     exists l blk v,
       ptr b = Some l /\ heap s !! l = Some blk
       /\ bytes blk !! N.to_nat i = Some v
       /\ index h i s = Ret (Ref (Some l) i) s
       /\ read (Ref (Some l) i) s = Ret v s
       /\ index_const h i s = Ret v s).
Proof.
  intros Hwf Hb. split.
  - intros Hge. unfold index, index_const.
    rewrite !(bind_Ret _ _ _ _ _ (get_Some _ _ _ Hb)).
    destruct (N.ltb_spec i (sz b)); [lia|]. done.
  - intros Hlt.
    destruct (wf_live w s h b Hwf Hb) as (l & blk & Hp & Hl & Hlen & _); [lia|].
    destruct (lookup_lt_is_Some_2 (bytes blk) (N.to_nat i)) as [v Hv]; [lia|].
    assert (Hread : read (Ref (Some l) i) s = Ret v s).
    { unfold read; simpl. by rewrite Hl, Hv. }
    exists l, blk, v. repeat split; try done.
    + unfold index. rewrite (bind_Ret _ _ _ _ _ (get_Some _ _ _ Hb)).
      destruct (N.ltb_spec i (sz b)); [|lia]. by rewrite Hp.
    + unfold index_const. rewrite (bind_Ret _ _ _ _ _ (get_Some _ _ _ Hb)).
      destruct (N.ltb_spec i (sz b)); [|lia]. by rewrite Hp.
Qed.

End store_facts.

Section copy_facts.
Import shared_buf.

Lemma sp_acquire_up p s :
  live (heap s) p ->
  sp_acquire p s = Ret tt {| heap := up p (heap s); objs := objs s |}.
Proof.
  intros Hp. destruct p as [l|]; simpl; [|by destruct s].
  destruct (Hp l eq_refl) as [blk Hl]. by rewrite Hl.
Qed.

Lemma sp_release_down p s :
  live (heap s) p ->
  sp_release p s = Ret tt {| heap := down p (heap s); objs := objs s |}.
Proof.
  intros Hp. destruct p as [l|]; simpl; [|by destruct s].
  destruct (Hp l eq_refl) as [blk Hl]. rewrite Hl. by destruct (_ <=? _)%N.
Qed.

Lemma up_lookup p hp l :
  up p hp !! l
  = if decide (p = Some l)
    then (fun blk => {| use_count := use_count blk + 1; bytes := bytes blk |}) <$> hp !! l
    else hp !! l.
Proof.
  unfold up. destruct p as [l'|]; [|by case_decide].
  case_decide as Heq.
  - injection Heq as ->. destruct (hp !! l) as [blk|] eqn:Hl.
    + by rewrite lookup_insert_eq.
    + by rewrite Hl.
  - destruct (hp !! l') as [blk|]; [|done].
    rewrite lookup_insert_ne; [done|congruence].
Qed.

Lemma down_lookup p hp l :
  down p hp !! l
  = if decide (p = Some l)
    then match hp !! l with
         | Some blk => if (use_count blk <=? 1)%N then None
                       else Some {| use_count := use_count blk - 1; bytes := bytes blk |}
         | None => None
         end
    else hp !! l.
Proof.
  unfold down. destruct p as [l'|]; [|by case_decide].
  case_decide as Heq.
  - injection Heq as ->. destruct (hp !! l) as [blk|] eqn:Hl; [|by rewrite Hl].
    destruct (_ <=? _)%N; [by rewrite lookup_delete_eq|by rewrite lookup_insert_eq].
  - destruct (hp !! l') as [blk|]; [|done].
    destruct (_ <=? _)%N;
      [rewrite lookup_delete_ne|rewrite lookup_insert_ne]; congruence.
Qed.

Lemma live_up hp p q : live hp p -> live (up q hp) p.
Proof.
  intros Hp l Hl. destruct (Hp l Hl) as [blk Hblk].
  rewrite up_lookup, Hblk. case_decide; simpl; eauto.
Qed.

Lemma wf_live_ptr w s h b : wf w s -> objs s !! h = Some b -> live (heap s) (ptr b).
Proof.
  intros Hwf Hb l Hl. destruct (wf_ptr w s h b l Hwf Hb Hl) as (blk & -> & _). eauto.
Qed.

(** Taking a reference and dropping it again changes nothing. *)
Lemma down_up p hp :
  (forall l blk, p = Some l -> hp !! l = Some blk -> (0 < use_count blk)%N) ->
  down p (up p hp) = hp.
Proof.
  intros Hpos. apply map_eq. intros l. rewrite down_lookup, up_lookup.
  case_decide as Hp; [|done].
  destruct (hp !! l) as [[c bs]|] eqn:Hl; simpl; [|done].
  specialize (Hpos l _ Hp Hl). simpl in Hpos.
  destruct (N.leb_spec (c + 1) 1); [lia|].
  do 2 f_equal. lia.
Qed.

(** [this->ptr = other.ptr] *)
Lemma sp_copy_assign_spec s this other b o :
  objs s !! this = Some b -> objs s !! other = Some o ->
  live (heap s) (ptr b) -> live (heap s) (ptr o) ->
  sp_copy_assign this other s
  = Ret tt {| heap := down (ptr b) (up (ptr o) (heap s));
              objs := <[this := {| ptr := ptr o; sz := sz b |}]> (objs s) |}.
Proof.
  intros Hb Ho Hlb Hlo. unfold sp_copy_assign.
  rewrite (bind_Ret _ _ _ _ _ (get_Some _ _ _ Ho)).
  rewrite (bind_Ret _ _ _ _ _ (sp_acquire_up (ptr o) s Hlo)).
  erewrite bind_Ret by (apply get_Some; exact Hb).
  erewrite bind_Ret by (apply set_ptr_Some; exact Hb). simpl.
  rewrite sp_release_down; [done|]. simpl. by apply live_up.
Qed.

(** [operator=(const shared_buf&)] on two existing objects, or on one. *)
Lemma copy_assign_spec s this other b o :
  objs s !! this = Some b -> objs s !! other = Some o ->
  live (heap s) (ptr b) -> live (heap s) (ptr o) ->
  copy_assign this other s
  = Ret tt {| heap := down (ptr b) (up (ptr o) (heap s));
              objs := <[this := o]> (objs s) |}.
Proof.
  intros Hb Ho Hlb Hlo. unfold copy_assign.
  rewrite (bind_Ret _ _ _ _ _ (sp_copy_assign_spec s this other b o Hb Ho Hlb Hlo)).
  destruct (decide (this = other)) as [->|Hne].
  - assert (o = b) as -> by congruence.
    erewrite bind_Ret by (apply get_Some; simpl; apply lookup_insert_eq).
    erewrite set_sz_Some by (simpl; apply lookup_insert_eq). simpl.
    rewrite insert_insert_eq. by destruct b.
  - erewrite bind_Ret by (apply get_Some; simpl; rewrite lookup_insert_ne; eauto).
    erewrite set_sz_Some by (simpl; apply lookup_insert_eq). simpl.
    rewrite insert_insert_eq. by destruct o.
Qed.

(** [shared_buf(const shared_buf&)] *)
Lemma copy_ctor_spec s this other o :
  objs s !! this = None -> objs s !! other = Some o ->
  live (heap s) (ptr o) ->
  (forall l blk, ptr o = Some l -> heap s !! l = Some blk -> (0 < use_count blk)%N) ->
  copy_ctor this other s
  = Ret tt {| heap := up (ptr o) (heap s); objs := <[this := o]> (objs s) |}.
Proof.
  intros Hnew Ho Hlo Hpos. unfold copy_ctor.
  assert (Hne : this <> other) by congruence.
  rewrite (bind_Ret _ _ _ _ _ (get_Some _ _ _ Ho)).
  rewrite (bind_Ret _ _ _ _ _ (sp_acquire_up (ptr o) s Hlo)).
  erewrite bind_Ret by (apply declare_None; exact Hnew).
  unfold put at 1. unfold bind at 1. simpl.
  rewrite insert_insert_eq.
  erewrite bind_Ret.
  2:{ apply (sp_copy_assign_spec _ this other {| ptr := ptr o; sz := sz o |} o); simpl.
      - apply lookup_insert_eq.
      - rewrite lookup_insert_ne; done.
      - by apply live_up.
      - by apply live_up. }
  simpl. rewrite insert_insert_eq.
  erewrite bind_Ret by (apply get_Some; simpl; rewrite lookup_insert_ne; eauto).
  erewrite set_sz_Some by (simpl; apply lookup_insert_eq). simpl.
  rewrite !insert_insert_eq. rewrite down_up.
  - by destruct o.
  - intros l blk Hl. rewrite up_lookup. rewrite decide_True by done.
    destruct (heap s !! l) as [blk'|]; simpl; [|done].
    intros [= <-]. simpl. lia.
Qed.

Lemma dom_up p hp : dom (up p hp) = dom hp.
Proof.
  apply set_eq. intros l. rewrite !elem_of_dom, up_lookup.
  case_decide; [|done]. by rewrite fmap_is_Some.
Qed.

Lemma dom_down p hp : dom (down p hp) ⊆ dom hp.
Proof.
  intros l. rewrite !elem_of_dom, down_lookup.
  case_decide; [|done]. destruct (hp !! l); [eauto|]. by intros [? ?].
Qed.


Lemma index_lt s h b (i : N) :
  objs s !! h = Some b -> (i < sz b)%N ->
  index h i s = Ret (Ref (ptr b) i) s
  /\ index_const h i s = read (Ref (ptr b) i) s.
Proof.
  intros Hb Hlt. unfold index, index_const.
  rewrite !(bind_Ret _ _ _ _ _ (get_Some _ _ _ Hb)).
  by destruct (N.ltb_spec i (sz b)); [|lia].
Qed.

Lemma index_ge s h b (i : N) :
  objs s !! h = Some b -> (sz b <= i)%N ->
  index h i s = Raise (out_of_range index_what) s
  /\ index_const h i s = Raise (out_of_range index_what) s.
Proof.
  intros Hb Hge. unfold index, index_const.
  rewrite !(bind_Ret _ _ _ _ _ (get_Some _ _ _ Hb)).
  by destruct (N.ltb_spec i (sz b)); [lia|].
Qed.

(** Writing through one object and reading through another (or the same
    one) that holds the same array. *)
Lemma write_read_shared s wr rd bw br l blk (i : N) v :
  objs s !! wr = Some bw -> objs s !! rd = Some br ->
  ptr bw = Some l -> ptr br = Some l -> heap s !! l = Some blk ->
  (i < sz bw)%N -> (i < sz br)%N -> (N.to_nat i < length (bytes blk))%nat ->
  write_read wr rd i v s
  = Ret (v, v)
        {| heap := <[l := {| use_count := use_count blk;
                             bytes := <[N.to_nat i := v]> (bytes blk) |}]> (heap s);
           objs := objs s |}.
Proof.
  intros Hw Hr Hpw Hpr Hl Hiw Hir Hlen. unfold write_read.
  destruct (index_lt s wr bw i Hw Hiw) as [Hidx _]. rewrite Hpw in Hidx.
  unfold bind at 1. unfold bind at 1. rewrite Hidx.
  unfold write at 1. simpl. rewrite Hl.
  rewrite bool_decide_eq_true_2 by done.
  set (s' := {| heap := _; objs := objs s |}).
  assert (Hrd : read (Ref (Some l) i) s' = Ret v s').
  { unfold read. simpl. rewrite lookup_insert_eq. simpl.
    by rewrite list_lookup_insert_eq. }
  destruct (index_lt s' rd br i Hr Hir) as [Hi Hc]. rewrite Hpr in Hi, Hc.
  rewrite Hrd in Hc.
  rewrite (bind_Ret _ _ _ _ _ Hc), (bind_Ret _ _ _ _ _ Hi), (bind_Ret _ _ _ _ _ Hrd).
  done.
Qed.

(** ** Copies share the array *)

(** C1. Let [b1] be a buffer and [i < b1.size()].  After [b2] is made a
    copy of [b1], by the copy constructor or by copy assignment (to any
    existing object, [b1] itself included), both objects hold the same
    array and no array was allocated; a byte [v] written with [b2[i] = v]
    is what [b1[i]] then reads, in both forms of [operator[]], and the
    same holds with the roles of [b1] and [b2] exchanged. *)
Theorem copy_shares_storage w s b1 b2 o (i : N) (v : Byte.byte) :
  wf w s -> objs s !! b1 = Some o -> (i < sz o)%N ->
  (objs s !! b2 = None ->
     exists s1, copy_ctor b2 b1 s = Ret tt s1
       /\ objs s1 !! b1 = Some o /\ objs s1 !! b2 = Some o
       /\ dom (heap s1) = dom (heap s)
       /\ (exists s2, write_read b2 b1 i v s1 = Ret (v, v) s2)
       /\ (exists s2, write_read b1 b2 i v s1 = Ret (v, v) s2))
  /\ (is_Some (objs s !! b2) ->
     exists s1, copy_assign b2 b1 s = Ret tt s1
       /\ objs s1 !! b1 = Some o /\ objs s1 !! b2 = Some o
       /\ dom (heap s1) ⊆ dom (heap s)
       /\ (exists s2, write_read b2 b1 i v s1 = Ret (v, v) s2)
       /\ (exists s2, write_read b1 b2 i v s1 = Ret (v, v) s2)).
Proof.
  intros Hwf Ho Hi.
  destruct (wf_live w s b1 o Hwf Ho) as (l & blk & Hp & Hl & Hlen & Hc); [lia|].
  pose proof (wf_live_ptr w s b1 o Hwf Ho) as Hlive.
  split.
  - intros Hnew. eexists. split.
    { apply copy_ctor_spec; try done.
      intros l' blk' Hp' Hl'. assert (l' = l) as -> by congruence.
      congruence. }
    simpl. assert (b2 <> b1) by congruence.
    rewrite lookup_insert_eq, lookup_insert_ne by done.
    rewrite dom_up. repeat split; try done.
    all: assert (Hl' : up (ptr o) (heap s) !! l
                       = Some {| use_count := use_count blk + 1; bytes := bytes blk |})
           by (rewrite up_lookup; destruct (decide (ptr o = Some l)); [|done];
               by rewrite Hl).
    all: eexists; eapply write_read_shared; simpl;
           rewrite ?lookup_insert_eq, ?lookup_insert_ne by done; eauto; simpl; lia.
  - intros [b Hb]. pose proof (wf_live_ptr w s b2 b Hwf Hb) as Hliveb.
    eexists. split; [by apply (copy_assign_spec s b2 b1 b o)|].
    simpl. rewrite lookup_insert_eq.
    assert (H1 : <[b2:=o]> (objs s) !! b1 = Some o).
    { destruct (decide (b2 = b1)) as [->|Hne];
        [apply lookup_insert_eq|by rewrite lookup_insert_ne]. }
    assert (Hl' : exists blk', down (ptr b) (up (ptr o) (heap s)) !! l = Some blk'
                               /\ bytes blk' = bytes blk).
    { rewrite down_lookup, up_lookup.
      destruct (decide (ptr o = Some l)); [|done]. rewrite Hl. simpl.
      destruct (decide (ptr b = Some l)); [|eauto].
      destruct (N.leb_spec (use_count blk + 1) 1); [lia|eauto]. }
    destruct Hl' as (blk' & Hl' & Hbytes).
    repeat split; try done.
    + etrans; [apply dom_down|]. by rewrite dom_up.
    + eexists. eapply write_read_shared; simpl; eauto;
        rewrite ?lookup_insert_eq; eauto; rewrite ?Hbytes; lia.
    + eexists. eapply write_read_shared; simpl; eauto;
        rewrite ?lookup_insert_eq; eauto; rewrite ?Hbytes; lia.
Qed.
End copy_facts.

Section move_facts.
Import shared_buf.

(** One step of a sequence whose first command reads or writes a member
    of an object that exists. *)
Ltac lookup_now :=
  simpl; rewrite ?lookup_insert_eq; rewrite ?lookup_insert_ne by done;
  rewrite ?lookup_insert_eq; eauto.
Ltac step :=
  first
    [ erewrite bind_Ret by (apply get_Some; lookup_now)
    | erewrite bind_Ret by (apply set_ptr_Some; lookup_now)
    | erewrite bind_Ret by (apply set_sz_Some; lookup_now)
    | erewrite bind_Ret by (apply declare_None; lookup_now)
    | erewrite bind_Ret by (unfold put; reflexivity) ];
  simpl.

(** [shared_buf(shared_buf&&)] *)
Lemma move_ctor_spec s this other o :
  objs s !! this = None -> objs s !! other = Some o ->
  move_ctor this other s
  = Ret tt {| heap := heap s;
              objs := <[other := moved_from]> (<[this := o]> (objs s)) |}.
Proof.
  intros Hnew Ho. assert (Hne : this <> other) by congruence.
  assert (Hne' : other <> this) by congruence.
  unfold move_ctor. do 5 step.
  erewrite set_sz_Some by lookup_now. simpl. f_equal. f_equal.
  rewrite insert_insert_eq.
  rewrite (insert_insert_ne _ this other) by done.
  rewrite insert_insert_eq. by destruct o.
Qed.

(** [this->ptr = std::move(other.ptr)] on two different objects: the
    pointer changes hands and what [this] held is released. *)
Lemma sp_move_assign_spec s this other b o :
  this <> other ->
  objs s !! this = Some b -> objs s !! other = Some o ->
  live (heap s) (ptr b) ->
  sp_move_assign this other s
  = Ret tt {| heap := down (ptr b) (heap s);
              objs := <[this := {| ptr := ptr o; sz := sz b |}]>
                        (<[other := {| ptr := None; sz := sz o |}]> (objs s)) |}.
Proof.
  intros Hne Hb Ho Hlive. assert (Hne' : other <> this) by congruence.
  unfold sp_move_assign. do 4 step.
  by rewrite sp_release_down by done.
Qed.

(** [this->ptr = std::move(this->ptr)]: the temporary takes the pointer,
    the swap hands it back, and the temporary dies empty. *)
Lemma sp_move_assign_self s this b :
  objs s !! this = Some b ->
  sp_move_assign this this s
  = Ret tt {| heap := heap s; objs := <[this := b]> (objs s) |}.
Proof.
  intros Hb. unfold sp_move_assign. do 4 step.
  unfold sp_release. rewrite !insert_insert_eq. by destruct b.
Qed.

(** [operator=(shared_buf&&)] on two different objects. *)
Lemma move_assign_spec s this other b o :
  this <> other ->
  objs s !! this = Some b -> objs s !! other = Some o ->
  live (heap s) (ptr b) ->
  move_assign this other s
  = Ret tt {| heap := down (ptr b) (heap s);
              objs := <[other := moved_from]> (<[this := o]> (objs s)) |}.
Proof.
  intros Hne Hb Ho Hlive. assert (Hne' : other <> this) by congruence.
  unfold move_assign.
  rewrite (bind_Ret _ _ _ _ _ (sp_move_assign_spec s this other b o Hne Hb Ho Hlive)).
  do 2 step.
  erewrite set_sz_Some by lookup_now. simpl. f_equal. f_equal.
  rewrite !insert_insert_eq.
  rewrite (insert_insert_ne _ this other) by done.
  rewrite insert_insert_eq. by destruct o.
Qed.

(** [operator=(shared_buf&&)] with the object itself as the source. *)
Lemma move_assign_self_spec s this b :
  objs s !! this = Some b ->
  move_assign this this s
  = Ret tt {| heap := heap s;
              objs := <[this := {| ptr := ptr b; sz := 0 |}]> (objs s) |}.
Proof.
  intros Hb. unfold move_assign.
  rewrite (bind_Ret _ _ _ _ _ (sp_move_assign_self s this b Hb)).
  do 2 step.
  erewrite set_sz_Some by lookup_now. simpl.
  by rewrite !insert_insert_eq.
Qed.
End move_facts.

(** ** The dump *)

Section sink_facts.
Import ostream.

Lemma emit_emit os a b : emit (emit os a) b = emit os (a ++ b).
Proof. unfold emit; simpl. by rewrite app_assoc. Qed.

Lemma emit_with_flags os f text :
  emit (with_flags os f) text = with_flags (emit os text) f.
Proof. reflexivity. Qed.

Lemma with_flags_twice os f g : with_flags (with_flags os f) g = with_flags os g.
Proof. reflexivity. Qed.

Lemma put_char_plain os c : plain_hex os -> put_char os c = emit os [c].
Proof.
  intros [Hf Hw]. unfold put_char, insert, padding. rewrite Hf, Hw. reflexivity.
Qed.

(** What [num_put] writes for a byte, in hexadecimal without [showbase]
    and [uppercase], is what the Standard Library prints. *)
Lemma digits_hex_of_byte v :
  digits 16 false (Byte.to_N v) = shared_buf.hex_of_byte v.
Proof. destruct v; vm_compute; reflexivity. Qed.

Lemma put_int_plain os v :
  plain_hex os -> put_int os (Byte.to_N v) = emit os (shared_buf.hex_of_byte v).
Proof.
  intros [Hf Hw]. unfold put_int, insert, padding, has. rewrite Hf, Hw.
  change (N.land ios_base.hex ios_base.basefield =? ios_base.hex)%N with true.
  change (N.land ios_base.hex ios_base.showbase =? 0)%N with true.
  change (N.land ios_base.hex ios_base.uppercase =? 0)%N with true.
  change (N.land ios_base.hex ios_base.adjustfield =? ios_base.left)%N with false.
  change (N.land ios_base.hex ios_base.adjustfield =? ios_base.internal)%N with false.
  cbn [negb andb length app]. rewrite digits_hex_of_byte.
  replace (Z.to_nat _) with 0%nat by lia. reflexivity.
Qed.

(** The opening of [print]: every flag is cleared, the bracket is written
    in the field width that was pending, and the base becomes 16. *)
Lemma open_bracket os :
  hex (put_char (resetiosflags (flags os) os) "[")
  = with_flags (emit os (replicate (Z.to_nat (width os - 1)) (fill os) ++ ["["%char]))
               ios_base.hex.
Proof.
  unfold hex, put_char, resetiosflags, setf, insert, padding, with_flags, emit.
  cbn [flags width precision fill out length].
  rewrite N.ldiff_diag, N.land_0_l. reflexivity.
Qed.
End sink_facts.

Section print_facts.
Import shared_buf.
Variable w : N.

Lemma emit_nil os : ostream.plain_hex os -> ostream.emit os [] = os.
Proof.
  intros [_ Hw]. destruct os; unfold ostream.emit; simpl in *.
  subst. by rewrite app_nil_r.
Qed.

Lemma print_loop_done s h b fuel (i : N) stream :
  objs s !! h = Some b -> (sz b <= i)%N ->
  print_loop w fuel h i stream s = Ret stream s.
Proof.
  intros Hb Hge.
  destruct fuel; simpl; rewrite (bind_Ret _ _ _ _ _ (get_Some _ _ _ Hb));
    by destruct (N.ltb_spec i (sz b)); [lia|].
Qed.

(** The loop of [print] from a position [i > 0] on: a comma, the digits
    and [h] for each remaining byte. *)
Lemma print_loop_from s h b l blk :
  objs s !! h = Some b -> ptr b = Some l -> heap s !! l = Some blk ->
  (N.to_nat (sz b) <= length (bytes blk))%nat -> is_size_t w (sz b) ->
  forall (k fuel : nat) (i : N) (stream : ostream.t),
    (0 < i)%N -> N.to_nat (sz b) = (N.to_nat i + k)%nat -> (k <= fuel)%nat ->
    ostream.plain_hex stream ->
    print_loop w fuel h i stream s
    = Ret (ostream.emit stream
             (concat (map (fun v => ","%char :: item v)
                          (take k (drop (N.to_nat i) (bytes blk)))))) s.
Proof.
  intros Hb Hp Hl Hlen Hsz. induction k as [|k IH]; intros fuel i stream Hi Hk Hfuel Hplain.
  - rewrite (print_loop_done s h b) by (done || lia). simpl. by rewrite emit_nil.
  - destruct fuel as [|fuel]; [lia|]. cbn [print_loop].
    rewrite (bind_Ret _ _ _ _ _ (get_Some _ _ _ Hb)).
    destruct (N.ltb_spec i (sz b)); [|lia].
    destruct (N.eqb_spec i 0); [lia|]. cbn [negb].
    destruct (lookup_lt_is_Some_2 (bytes blk) (N.to_nat i)) as [v Hv]; [lia|].
    assert (Hread : read (sp_index (ptr b) i) s = Ret v s).
    { unfold read, sp_index. simpl. by rewrite Hp, Hl, Hv. }
    rewrite (bind_Ret _ _ _ _ _ Hread).
    rewrite (put_char_plain stream) by done.
    rewrite put_int_plain by (by destruct Hplain).
    rewrite put_char_plain by (by destruct Hplain).
    rewrite wrap_small by (unfold is_size_t in *; lia).
    rewrite IH; [|lia|lia|lia|by destruct Hplain].
    rewrite !emit_emit. do 2 f_equal.
    rewrite (drop_S _ _ _ Hv). cbn [take map concat].
    replace (N.to_nat (i + 1)) with (S (N.to_nat i)) by lia.
    unfold item. simpl. by rewrite <- app_assoc.
Qed.

(** [print] on any sink: the flags are put back, the field width is used
    up by the opening bracket, and the text is the dump of the bytes. *)
Lemma print_spec s h b os :
  wf w s -> objs s !! h = Some b ->
  print w h os s
  = Ret (ostream.set_flags
           (ostream.emit os (replicate (Z.to_nat (ostream.width os - 1)) (ostream.fill os)
                             ++ dump (contents s b)))
           (ostream.flags os)) s.
Proof.
  intros Hwf Hb. unfold print. rewrite open_bracket.
  set (os1 := ostream.with_flags _ _).
  assert (Hplain : ostream.plain_hex os1) by done.
  rewrite (bind_Ret _ _ _ _ _ (get_Some _ _ _ Hb)).
  destruct (N.eq_dec (sz b) 0%N) as [Hz | Hnz].
  - erewrite bind_Ret by (apply (print_loop_done s h b); [done|lia]).
    unfold ret. rewrite put_char_plain by done.
    assert (contents s b = []) as ->.
    { unfold contents. rewrite Hz. destruct (ptr b); [|done].
      by destruct (heap s !! _). }
    unfold os1, ostream.set_flags.
    rewrite emit_with_flags, with_flags_twice, emit_emit. do 2 f_equal.
    unfold dump, join_commas. cbn [map]. rewrite <- !app_assoc. reflexivity.
  - destruct (wf_live w s h b Hwf Hb) as (l & blk & Hp & Hl & Hlen & _); [lia|].
    destruct Hwf as [Hobjs _]. destruct (Hobjs h b Hb) as [Hsz _].
    destruct (bytes blk) as [|v0 rest] eqn:Hbytes; [simpl in Hlen; lia|].
    destruct (N.to_nat (sz b)) as [|fuel] eqn:Hfuel; [lia|].
    assert (Hloop : print_loop w (S fuel) h 0 os1 s
                    = Ret (ostream.emit os1
                             (item v0 ++ concat (map (fun v => ","%char :: item v) rest))) s).
    { cbn [print_loop].
      rewrite (bind_Ret _ _ _ _ _ (get_Some _ _ _ Hb)).
      destruct (N.ltb_spec 0 (sz b)); [|lia]. cbn [N.eqb negb].
      assert (Hread : read (sp_index (ptr b) 0) s = Ret v0 s).
      { unfold read, sp_index. simpl. by rewrite Hp, Hl, Hbytes. }
      rewrite (bind_Ret _ _ _ _ _ Hread).
      rewrite put_int_plain by done.
      rewrite put_char_plain by done.
      rewrite wrap_small by (unfold is_size_t in *; lia).
      rewrite (print_loop_from s h b l blk Hb Hp Hl) with (k := fuel);
        rewrite ?Hbytes; simpl in *; try lia; try done.
      rewrite !emit_emit. do 2 f_equal.
      rewrite drop_0, (firstn_all2 (n := fuel)) by lia.
      unfold item. by rewrite <- app_assoc. }
    rewrite (bind_Ret _ _ _ _ _ Hloop).
    unfold ret. rewrite put_char_plain by done.
    rewrite !emit_emit. f_equal.
    assert (contents s b = v0 :: rest) as ->.
    { unfold contents. rewrite Hp, Hl, Hbytes, Hfuel.
      apply firstn_all2. simpl in *. lia. }
    unfold os1, ostream.set_flags.
    rewrite emit_with_flags, with_flags_twice, emit_emit. do 2 f_equal.
    unfold dump, join_commas. cbn [map]. rewrite map_map.
    rewrite <- !app_assoc. reflexivity.
Qed.
End print_facts.

(** ** Counting owners *)

Section owner_facts.
Import shared_buf.

Lemma owners_insert (m : gmap handle t) h b l :
  (owners (<[h := b]> m) l + holds (m !! h) l = owners m l + holds (Some b) l)%nat.
Proof.
  unfold owners, holds.
  set (P := fun kv : handle * t => ptr kv.2 = Some l).
  assert (Hsome : forall b0, m !! h = Some b0 -> ptr b0 = Some l ->
                             is_Some (filter P m !! h)).
  { intros b0 Hb0 Hp. exists b0. by apply map_lookup_filter_Some_2. }
  assert (Hnone : (forall b0, m !! h = Some b0 -> ptr b0 <> Some l) ->
                  filter P m !! h = None).
  { intros Hno. destruct (filter P m !! h) as [b0|] eqn:Hf; [|done].
    apply map_lookup_filter_Some in Hf as [Hb0 HP]. by destruct (Hno b0 Hb0). }
  rewrite map_filter_insert. simpl.
  destruct (decide (P (h, b))) as [HP | HP]; unfold P in HP; simpl in HP.
  - rewrite decide_True by done. rewrite map_size_insert.
    destruct (m !! h) as [b0|] eqn:Hb0.
    + destruct (decide (ptr b0 = Some l)) as [Hp0 | Hp0].
      * destruct (Hsome b0 eq_refl Hp0) as [x ->]. simpl. lia.
      * rewrite Hnone by (intros ? [= <-]; done). lia.
    + rewrite Hnone by done. lia.
  - rewrite decide_False by done. rewrite map_filter_delete, map_size_delete.
    destruct (m !! h) as [b0|] eqn:Hb0.
    + destruct (decide (ptr b0 = Some l)) as [Hp0 | Hp0].
      * destruct (Hsome b0 eq_refl Hp0) as [x Hx].
        pose proof (map_size_ne_0_lookup_2 _ _ (mk_is_Some _ _ Hx)).
        rewrite Hx. simpl. lia.
      * rewrite Hnone by (intros ? [= <-]; done). simpl. lia.
    + rewrite Hnone by done. simpl. lia.
Qed.

Lemma owners_delete (m : gmap handle t) h l :
  (owners (delete h m) l + holds (m !! h) l = owners m l)%nat.
Proof.
  destruct (m !! h) as [b|] eqn:Hb.
  - pose proof (owners_insert (delete h m) h b l) as Hins.
    rewrite lookup_delete_eq, insert_delete_eq, insert_id in Hins by done.
    simpl in *. lia.
  - rewrite delete_id by done. simpl. lia.
Qed.

Lemma owners_pos (m : gmap handle t) h b l :
  m !! h = Some b -> ptr b = Some l -> (1 <= owners m l)%nat.
Proof.
  intros Hb Hp. pose proof (owners_delete m h l) as Hd.
  rewrite Hb in Hd. simpl in Hd. rewrite decide_True in Hd by done. lia.
Qed.

(** Two objects that hold the same allocation are two owners. *)
Lemma owners_two (m : gmap handle t) h1 h2 b1 b2 l :
  h1 <> h2 -> m !! h1 = Some b1 -> m !! h2 = Some b2 ->
  ptr b1 = Some l -> ptr b2 = Some l -> (2 <= owners m l)%nat.
Proof.
  intros Hne H1 H2 Hp1 Hp2. pose proof (owners_delete m h1 l) as Hd.
  rewrite H1 in Hd. simpl in Hd. rewrite decide_True in Hd by done.
  assert (1 <= owners (delete h1 m) l)%nat; [|lia].
  apply (owners_pos _ h2 b2); [|done]. by rewrite lookup_delete_ne.
Qed.
End owner_facts.

(** ** Moving *)

Section moved_facts.
Import shared_buf.
Variable w : N.


(** [begin()] and [end()] of a buffer that holds an array. *)
Lemma begin_end V s h b :
  objs s !! h = Some b -> ptr b <> None ->
  @begin_ V h s = Ret (iterator_.ctor (ptr b) (sz b) 0) s
  /\ @end_ V h s = Ret (iterator_.ctor (ptr b) (sz b) (sz b)) s.
Proof.
  intros Hb Hp. unfold begin_, end_.
  rewrite !(bind_Ret _ _ _ _ _ (get_Some _ _ _ Hb)).
  by destruct (ptr b).
Qed.



Lemma range_for_empty V A s h b (body : ref -> A -> M A) (acc : A) :
  objs s !! h = Some b -> ptr b <> None -> sz b = 0%N ->
  @range_for w V A h body acc s = Ret acc s.
Proof.
  intros Hb Hp Hz. unfold range_for.
  destruct (begin_end V s h b Hb Hp) as [Hbegin Hend].
  rewrite (bind_Ret _ _ _ _ _ Hbegin), (bind_Ret _ _ _ _ _ Hend).
  rewrite Hz. simpl.
  unfold iterator_.ne, iterator_.ctor. simpl.
  rewrite bool_decide_eq_false_2 by (intros Hne; by apply Hne). done.
Qed.


(** ** Moves empty the source *)


End moved_facts.

(** ** Indexing in the earlier revisions, printing, self-assignment *)

Section claims.
Import shared_buf.
Variable w : N.

(** C3 (the defect).  In [src/unnamed/part_000] and [src/unnamed/part_001]
    the [const] form of [operator[]] is [return operator[](i);], a call of
    itself: however many calls are allowed it has neither returned a byte
    nor thrown, whether [i] is in range or not.  The current header, on
    the same store, returns the byte for an index in range and throws for
    the first index out of range. *)
Theorem const_index_calls_itself :
  (forall fuel this (i : N) s, part_000.index_const fuel this i s = NoFuel)
  /\ index_const 0 1 one_buffer = Ret Byte.x02 one_buffer
  /\ index_const 0 3 one_buffer = Raise (out_of_range index_what) one_buffer.
Proof.
  split; [|split; vm_compute; reflexivity].
  induction fuel as [|fuel IH]; intros; simpl; [done|apply IH].
Qed.

(** C8, as the code has it.  [print] first writes the fill characters a
    pending field width asks for, one less than the width (none for a
    width of 0 or 1), and then exactly the dump of the buffer's bytes: an
    opening bracket, each byte as its lowercase hexadecimal digits (as many
    as the value needs) followed by [h], commas between neighbours only, a
    closing bracket; nothing but the two brackets for a buffer of no
    bytes.  10 is written [ah], 255 [ffh], and the bytes 1, 2, 3 give
    [[1h,2h,3h]]. *)
Theorem print_writes_dump s h b os :
  wf w s -> objs s !! h = Some b ->
  (exists os',
      print w h os s = Ret os' s
      /\ ostream.out os'
         = ostream.out os
           ++ replicate (Z.to_nat (ostream.width os - 1)) (ostream.fill os)
           ++ dump (contents s b)
      /\ ((ostream.width os <= 1)%Z ->
          ostream.out os' = ostream.out os ++ dump (contents s b))
      /\ (sz b = 0%N -> dump (contents s b) = list_ascii_of_string "[]"))
  /\ (forall v,
        hex_value (hex_of_byte v) = Some (Byte.to_N v)
        /\ length (hex_of_byte v) = (if (Byte.to_N v <? 16)%N then 1 else 2)%nat)
  /\ item Byte.x0a = list_ascii_of_string "ah"
  /\ item Byte.xff = list_ascii_of_string "ffh"
  /\ dump [] = list_ascii_of_string "[]"
  /\ dump [Byte.x01; Byte.x02; Byte.x03] = list_ascii_of_string "[1h,2h,3h]".
Proof.
  intros Hwf Hb. split; [|split; [|by vm_compute]].
  - eexists. split; [by apply print_spec|]. simpl. split_and!; [done| |].
    + intros Hw. by replace (Z.to_nat _) with 0%nat by lia.
    + intros Hz. assert (contents s b = []) as ->; [|done].
      unfold contents. rewrite Hz. destruct (ptr b); [|done].
      by destruct (heap s !! _).
  - intros v. destruct v; vm_compute; done.
Qed.

(** C8, as stated, fails: on a sink with a field width of 6 pending the
    bytes 1, 2, 3 are written as five fill characters and then the dump,
    not as the dump alone. *)
Lemma print_pads_the_dump :
  exists os',
    print 64 0 ostream.wide_sink one_buffer = Ret os' one_buffer
    /\ ostream.out os'
       = ostream.out ostream.wide_sink ++ list_ascii_of_string "*****[1h,2h,3h]"
    /\ ostream.out os'
       <> ostream.out ostream.wide_sink ++ dump [Byte.x01; Byte.x02; Byte.x03].
Proof. eexists. split; [vm_compute; reflexivity|]. split; [vm_compute; reflexivity|]. by vm_compute. Qed.

(** C9, as the code has it.  Whatever the formatting state of the sink,
    [print] returns with the flags, the fill character and the precision
    as they were; the field width is 0 afterwards, used up by the opening
    bracket, which is padded on its left to the width that was pending.
    The text written does not depend on the flags the sink came with. *)
Theorem print_restores_flags s h b os :
  wf w s -> objs s !! h = Some b ->
  exists os',
    print w h os s = Ret os' s
    /\ ostream.flags os' = ostream.flags os
    /\ ostream.fill os' = ostream.fill os
    /\ ostream.precision os' = ostream.precision os
    /\ ostream.width os' = 0%Z
    /\ ostream.out os'
       = ostream.out os
         ++ replicate (Z.to_nat (ostream.width os - 1)) (ostream.fill os)
         ++ dump (contents s b)
    /\ (forall f, exists os2,
          print w h (ostream.with_flags os f) s = Ret os2 s
          /\ ostream.out os2 = ostream.out os').
Proof.
  intros Hwf Hb. eexists. split; [by apply print_spec|].
  repeat split. intros f. eexists. split; [by apply print_spec|done].
Qed.

(** C9, as stated, fails: a sink with a field width of 6 pending comes
    back with width 0, and what reaches it differs from what reaches a
    sink with no width pending. *)
Lemma print_uses_up_width :
  exists wide narrow,
    print 64 0 ostream.wide_sink one_buffer = Ret wide one_buffer
    /\ print 64 0 ostream.fresh_sink one_buffer = Ret narrow one_buffer
    /\ ostream.fmt wide <> ostream.fmt ostream.wide_sink
    /\ ostream.out wide = list_ascii_of_string "*****[1h,2h,3h]"
    /\ ostream.out narrow = list_ascii_of_string "[1h,2h,3h]".
Proof. do 2 eexists. repeat split; try (vm_compute; reflexivity). by vm_compute. Qed.

(** A buffer that kept its array but reports no bytes is in order. *)
Lemma wf_self_moved s h b :
  wf w s -> objs s !! h = Some b ->
  wf w {| heap := heap s; objs := <[h := {| ptr := ptr b; sz := 0 |}]> (objs s) |}.
Proof.
  intros [Hobjs Hheap] Hb. split; simpl.
  - intros h' b'. destruct (decide (h = h')) as [<-|Hne].
    + rewrite lookup_insert_eq. intros [= <-]. split; simpl.
      * apply pow2_pos.
      * destruct (Hobjs h b Hb) as [_ Hok].
        destruct (ptr b); [|done]. destruct (heap s !! _); [by left|done].
    + rewrite lookup_insert_ne by done. apply Hobjs.
  - intros l blk Hl. destruct (Hheap l blk Hl) as [Hcount Hpos].
    split; [|done]. rewrite Hcount. f_equal.
    pose proof (owners_insert (objs s) h {| ptr := ptr b; sz := 0 |} l) as Hins.
    rewrite Hb in Hins. simpl in Hins. lia.
Qed.

(** C10, as the code has it.  [b = std::move(b)] leaves [b] reporting no
    bytes while still holding its array: no allocation is released and no
    owner count changes.  The store stays in order, and destroying [b]
    afterwards gives up the reference as for any other buffer. *)
Theorem self_move_keeps_storage s h b :
  wf w s -> objs s !! h = Some b ->
  exists s',
    move_assign h h s = Ret tt s'
    /\ objs s' = <[h := {| ptr := ptr b; sz := 0 |}]> (objs s)
    /\ heap s' = heap s
    /\ size h s' = Ret 0%N s'
    /\ wf w s'
    /\ dtor h s' = Ret tt {| heap := down (ptr b) (heap s); objs := delete h (objs s) |}.
Proof.
  intros Hwf Hb. eexists. split; [by apply move_assign_self_spec|].
  simpl. split_and!; try done.
  - unfold size. erewrite bind_Ret by (apply get_Some; simpl; apply lookup_insert_eq).
    done.
  - by apply wf_self_moved.
  - unfold dtor.
    erewrite bind_Ret by (apply get_Some; simpl; apply lookup_insert_eq). simpl.
    erewrite bind_Ret by (apply sp_release_down; simpl; by apply (wf_live_ptr w s h b)).
    unfold forget. simpl. by rewrite delete_insert_eq.
Qed.

(** C10, as stated, fails: after [a = std::move(a)] on a buffer of three
    bytes the object still holds allocation 1, which is still allocated
    and still counts one owner. *)
Lemma self_move_drops_nothing :
  exists s',
    move_assign 0 0 one_buffer = Ret tt s'
    /\ objs s' !! 0%nat = Some {| ptr := Some 1%positive; sz := 0 |}
    /\ objs s' !! 0%nat <> Some moved_from
    /\ heap s' !! 1%positive
       = Some {| use_count := 1; bytes := [Byte.x01; Byte.x02; Byte.x03] |}.
Proof. eexists. repeat split; try (vm_compute; reflexivity). by vm_compute. Qed.
End claims.

(** ** The cursor of the earliest revision *)

Section early_cursor.
Variable w : N.

(** C4 (the defect).  The cursor constructor of [src/unnamed/part_001]
    has an empty body: asked for a position beyond the size it keeps that
    position, outside [0, size].  Such a cursor is not moved by
    [operator++] and never compares equal to the [end()] cursor.  The
    constructor of the current header, given the same arguments, stands at
    [size]. *)
Theorem early_ctor_keeps_position (p : option loc) (size i : N) :
  (size < i)%N ->
  part_001.i (part_001.ctor p size i) = i
  /\ ~ (part_001.i (part_001.ctor p size i)
        <= part_001.size (part_001.ctor p size i))%N
  /\ (forall k, Nat.iter k (part_001.pre_inc w) (part_001.ctor p size i)
                = part_001.ctor p size i)
  /\ (forall k, part_001.ne (Nat.iter k (part_001.pre_inc w) (part_001.ctor p size i))
                            (part_001.ctor p size size) = true)
  /\ iterator_.i (@iterator_.ctor uint8_t p size i) = size.
Proof.
  intros Hlt.
  assert (Hstuck : forall k, Nat.iter k (part_001.pre_inc w) (part_001.ctor p size i)
                             = part_001.ctor p size i).
  { induction k as [|k IH]; simpl; [done|]. rewrite IH.
    unfold part_001.pre_inc. simpl.
    by destruct (N.ltb_spec i size); [lia|]. }
  split_and!; simpl; try done.
  - lia.
  - intros k. rewrite Hstuck. unfold part_001.ne. simpl.
    destruct (N.eqb_spec i size); [lia|]. simpl. apply orb_true_r.
  - destruct (ctor_position uint8_t p size i) as (-> & _). lia.
Qed.
End early_cursor.

(** ** The stores a program can get to are well formed *)

Section invariant.
Import shared_buf.
Variable w : N.

Lemma owners_zero (m : gmap handle t) l :
  (forall h b, m !! h = Some b -> ptr b <> Some l) -> owners m l = 0%nat.
Proof.
  intros Hnone. unfold owners.
  destruct (base.size (filter (fun kv : handle * t => ptr kv.2 = Some l) m)) eqn:Hsize;
    [done|].
  assert (Hne : base.size (filter (fun kv : handle * t => ptr kv.2 = Some l) m) <> 0%nat)
    by lia.
  apply map_size_ne_0_lookup_1 in Hne as (h & b & Hb).
  apply map_lookup_filter_Some in Hb as [Hb Hp]. by destruct (Hnone h b Hb).
Qed.

Lemma wf_counted s : wf w s -> forall l, counted s l.
Proof.
  intros [Hobjs Hheap] l. unfold counted.
  destruct (heap s !! l) as [blk|] eqn:Hl.
  - destruct (Hheap l blk Hl). split; [done|lia].
  - apply owners_zero. intros h b Hb Hp.
    destruct (Hobjs h b Hb) as [_ Hok]. by rewrite Hp, Hl in Hok.
Qed.

Lemma wf_sized s h b : wf w s -> objs s !! h = Some b -> sized w (heap s) b.
Proof.
  intros [Hobjs _] Hb. destruct (Hobjs h b Hb) as [Hsz Hok].
  split; [done|]. split.
  - intros Hp. by rewrite Hp in Hok.
  - intros l blk Hp Hl. by rewrite Hp, Hl in Hok.
Qed.

(** The two readings of well-formedness agree. *)
Lemma wf_intro s :
  (forall l, counted s l) ->
  (forall h b, objs s !! h = Some b -> sized w (heap s) b) ->
  wf w s.
Proof.
  intros Hcount Hsized. split.
  - intros h b Hb. destruct (Hsized h b Hb) as (Hsz & Hnull & Hlen).
    split; [done|]. destruct (ptr b) as [l|] eqn:Hp; [|by apply Hnull].
    specialize (Hcount l). unfold counted in Hcount.
    destruct (heap s !! l) as [blk|] eqn:Hl; [by apply (Hlen l)|].
    pose proof (owners_pos (objs s) h b l Hb Hp). lia.
  - intros l blk Hl. specialize (Hcount l). unfold counted in Hcount.
    rewrite Hl in Hcount. destruct Hcount. split; [done|lia].
Qed.

Lemma sized_same_bytes hp hp' b : same_bytes hp hp' -> sized w hp b -> sized w hp' b.
Proof.
  intros Hsame (Hsz & Hnull & Hlen). split; [done|]. split; [done|].
  intros l blk' Hp Hl'. destruct (Hsame l blk' Hl') as (blk & Hl & Hbytes).
  rewrite <- Hbytes. by apply (Hlen l).
Qed.

Lemma same_bytes_trans hp1 hp2 hp3 :
  same_bytes hp1 hp2 -> same_bytes hp2 hp3 -> same_bytes hp1 hp3.
Proof.
  intros H12 H23 l blk3 Hl3.
  destruct (H23 l blk3 Hl3) as (blk2 & Hl2 & Hb2).
  destruct (H12 l blk2 Hl2) as (blk1 & Hl1 & Hb1).
  exists blk1. split; [done|congruence].
Qed.

Lemma same_bytes_up p hp : same_bytes hp (up p hp).
Proof.
  intros l blk'. rewrite up_lookup.
  destruct (decide (p = Some l)); [|eauto].
  destruct (hp !! l) as [blk|]; simpl; [|done]. intros [= <-]. eauto.
Qed.

Lemma same_bytes_down p hp : same_bytes hp (down p hp).
Proof.
  intros l blk'. rewrite down_lookup.
  destruct (decide (p = Some l)); [|eauto].
  destruct (hp !! l) as [blk|]; [|done].
  destruct (_ <=? _)%N; [done|]. intros [= <-]. eauto.
Qed.

(** The owner counts after one object's members were replaced. *)
Ltac count_owners Hwf l :=
  let Hc := fresh "Hc" in
  pose proof (wf_counted _ Hwf l) as Hc; unfold counted in *; simpl in *.

Lemma wf_copy s this other o :
  wf w s -> objs s !! this = None -> objs s !! other = Some o ->
  wf w {| heap := up (ptr o) (heap s); objs := <[this := o]> (objs s) |}.
Proof.
  intros Hwf Hnew Ho. apply wf_intro.
  - intros l. count_owners Hwf l. rewrite up_lookup.
    pose proof (owners_insert (objs s) this o l) as Hins.
    rewrite Hnew in Hins. simpl in Hins.
    destruct (decide (ptr o = Some l)) as [Hp|Hp].
    + pose proof (owners_pos (objs s) other o l Ho Hp).
      destruct (heap s !! l) as [[c bs]|]; simpl in *; [|lia].
      split; lia.
    + destruct (heap s !! l) as [[c bs]|]; simpl in *; [split|]; lia.
  - intros h b. simpl. intros Hb.
    apply (sized_same_bytes (heap s)); [apply same_bytes_up|].
    destruct (decide (this = h)) as [<-|Hne].
    + rewrite lookup_insert_eq in Hb. injection Hb as <-.
      by apply (wf_sized s other).
    + rewrite lookup_insert_ne in Hb by done. by apply (wf_sized s h).
Qed.

Lemma wf_copy_assign s this other b o :
  wf w s -> objs s !! this = Some b -> objs s !! other = Some o ->
  wf w {| heap := down (ptr b) (up (ptr o) (heap s)); objs := <[this := o]> (objs s) |}.
Proof.
  intros Hwf Hb Ho. apply wf_intro.
  - intros l. count_owners Hwf l. rewrite down_lookup, up_lookup.
    pose proof (owners_insert (objs s) this o l) as Hins.
    rewrite Hb in Hins. simpl in Hins.
    destruct (decide (ptr b = Some l)) as [Hpb|Hpb];
      destruct (decide (ptr o = Some l)) as [Hpo|Hpo];
      try pose proof (owners_pos (objs s) this b l Hb Hpb);
      try pose proof (owners_pos (objs s) other o l Ho Hpo);
      destruct (heap s !! l) as [[c bs]|]; simpl in *; try lia.
    all: destruct (_ <=? 1)%N eqn:Hle;
      [apply N.leb_le in Hle | apply N.leb_gt in Hle]; simpl; try split; lia.
  - intros h b'. simpl. intros Hb'.
    apply (sized_same_bytes (heap s)).
    { eapply same_bytes_trans; [apply same_bytes_up|apply same_bytes_down]. }
    destruct (decide (this = h)) as [<-|Hne].
    + rewrite lookup_insert_eq in Hb'. injection Hb' as <-.
      by apply (wf_sized s other).
    + rewrite lookup_insert_ne in Hb' by done. by apply (wf_sized s h).
Qed.

Lemma wf_move s this other o :
  wf w s -> objs s !! this = None -> objs s !! other = Some o ->
  wf w {| heap := heap s;
          objs := <[other := moved_from]> (<[this := o]> (objs s)) |}.
Proof.
  intros Hwf Hnew Ho. assert (Hne : this <> other) by congruence.
  apply wf_intro.
  - intros l. count_owners Hwf l.
    pose proof (owners_insert (objs s) this o l) as H1.
    pose proof (owners_insert (<[this := o]> (objs s)) other moved_from l) as H2.
    rewrite Hnew in H1. rewrite lookup_insert_ne, Ho in H2 by done.
    simpl in H1, H2.
    destruct (heap s !! l) as [[c bs]|]; simpl in *; [split|]; lia.
  - intros h b. simpl. intros Hb.
    destruct (decide (other = h)) as [<-|Hne1].
    { rewrite lookup_insert_eq in Hb. injection Hb as <-.
      split; [apply pow2_pos|]. by split. }
    rewrite lookup_insert_ne in Hb by done.
    destruct (decide (this = h)) as [<-|Hne2].
    + rewrite lookup_insert_eq in Hb. injection Hb as <-.
      by apply (wf_sized s other).
    + rewrite lookup_insert_ne in Hb by done. by apply (wf_sized s h).
Qed.

Lemma wf_move_assign s this other b o :
  wf w s -> this <> other -> objs s !! this = Some b -> objs s !! other = Some o ->
  wf w {| heap := down (ptr b) (heap s);
          objs := <[other := moved_from]> (<[this := o]> (objs s)) |}.
Proof.
  intros Hwf Hne Hb Ho. apply wf_intro.
  - intros l. count_owners Hwf l. rewrite down_lookup.
    pose proof (owners_insert (objs s) this o l) as H1.
    pose proof (owners_insert (<[this := o]> (objs s)) other moved_from l) as H2.
    rewrite Hb in H1. rewrite lookup_insert_ne, Ho in H2 by done.
    simpl in H1, H2.
    destruct (decide (ptr b = Some l)) as [Hpb|Hpb];
      [pose proof (owners_pos (objs s) this b l Hb Hpb)|];
      destruct (heap s !! l) as [[c bs]|]; simpl in *; try (split; lia); try lia.
    destruct (c <=? 1)%N eqn:Hle;
      [apply N.leb_le in Hle | apply N.leb_gt in Hle]; simpl; try split; lia.
  - intros h b'. simpl. intros Hb'.
    destruct (decide (other = h)) as [<-|Hne1].
    { rewrite lookup_insert_eq in Hb'. injection Hb' as <-.
      split; [apply pow2_pos|]. by split. }
    rewrite lookup_insert_ne in Hb' by done.
    apply (sized_same_bytes (heap s)); [apply same_bytes_down|].
    destruct (decide (this = h)) as [<-|Hne2].
    + rewrite lookup_insert_eq in Hb'. injection Hb' as <-.
      by apply (wf_sized s other).
    + rewrite lookup_insert_ne in Hb' by done. by apply (wf_sized s h).
Qed.

Lemma wf_dtor s this b :
  wf w s -> objs s !! this = Some b ->
  wf w {| heap := down (ptr b) (heap s); objs := delete this (objs s) |}.
Proof.
  intros Hwf Hb. apply wf_intro.
  - intros l. count_owners Hwf l. rewrite down_lookup.
    pose proof (owners_delete (objs s) this l) as Hdel.
    rewrite Hb in Hdel. simpl in Hdel.
    destruct (decide (ptr b = Some l)) as [Hpb|Hpb];
      [pose proof (owners_pos (objs s) this b l Hb Hpb)|];
      destruct (heap s !! l) as [[c bs]|]; simpl in *; try (split; lia); try lia.
    destruct (c <=? 1)%N eqn:Hle;
      [apply N.leb_le in Hle | apply N.leb_gt in Hle]; simpl; try split; lia.
  - intros h b'. simpl. intros Hb'.
    apply (sized_same_bytes (heap s)); [apply same_bytes_down|].
    apply lookup_delete_Some in Hb' as [_ Hb']. by apply (wf_sized s h).
Qed.

Lemma wf_ctor s this n junk :
  wf w s -> objs s !! this = None -> is_size_t w n ->
  wf w {| heap := <[fresh (dom (heap s))
                    := {| use_count := 1; bytes := resize (N.to_nat n) Byte.x00 junk |}]>
                    (heap s);
          objs := <[this := {| ptr := Some (fresh (dom (heap s))); sz := n |}]> (objs s) |}.
Proof.
  intros Hwf Hnew Hn.
  set (l0 := fresh (dom (heap s))).
  assert (Hfresh : heap s !! l0 = None).
  { apply not_elem_of_dom. apply is_fresh. }
  assert (Hnobody : forall h b, objs s !! h = Some b -> ptr b <> Some l0).
  { intros h b Hb Hp. destruct (wf_ptr w s h b l0 Hwf Hb Hp) as (blk & Hl & _).
    congruence. }
  apply wf_intro.
  - intros l. count_owners Hwf l.
    pose proof (owners_insert (objs s) this {| ptr := Some l0; sz := n |} l) as Hins.
    rewrite Hnew in Hins. simpl in Hins.
    destruct (decide (l0 = l)) as [<-|Hne].
    + rewrite lookup_insert_eq. rewrite Hfresh in Hc.
      rewrite decide_True in Hins by done. simpl. split; lia.
    + rewrite lookup_insert_ne by done.
      rewrite decide_False in Hins by congruence.
      destruct (heap s !! l) as [[c bs]|]; simpl in *; [split|]; lia.
  - intros h b. simpl. intros Hb.
    destruct (decide (this = h)) as [<-|Hne].
    + rewrite lookup_insert_eq in Hb. injection Hb as <-.
      split; [done|]. split; [done|]. simpl.
      intros l blk [= <-]. rewrite lookup_insert_eq. intros [= <-]. simpl.
      right. rewrite length_resize. lia.
    + rewrite lookup_insert_ne in Hb by done.
      destruct (wf_sized s h b Hwf Hb) as (Hsz & Hnull & Hlen).
      split; [done|]. split; [done|].
      intros l blk Hp. destruct (decide (l0 = l)) as [<-|Hne'].
      * by destruct (Hnobody h b Hb).
      * rewrite lookup_insert_ne by done. by apply Hlen.
Qed.

Lemma wf_write s l blk (i : nat) v :
  wf w s -> heap s !! l = Some blk ->
  wf w {| heap := <[l := {| use_count := use_count blk; bytes := <[i := v]> (bytes blk) |}]>
                    (heap s);
          objs := objs s |}.
Proof.
  intros Hwf Hl. apply wf_intro.
  - intros l'. count_owners Hwf l'.
    destruct (decide (l = l')) as [<-|Hne].
    + rewrite lookup_insert_eq. by rewrite Hl in Hc.
    + by rewrite lookup_insert_ne.
  - intros h b. simpl. intros Hb.
    destruct (wf_sized s h b Hwf Hb) as (Hsz & Hnull & Hlen).
    split; [done|]. split; [done|].
    intros l' blk' Hp. destruct (decide (l = l')) as [<-|Hne].
    + rewrite lookup_insert_eq. intros [= <-]. simpl. rewrite length_insert.
      by apply (Hlen l).
    + rewrite lookup_insert_ne by done. by apply Hlen.
Qed.

(** *** What each operation leaves, and when it succeeds at all *)

Lemma bind_UB {A B} (m : M A) (k : A -> M B) s : m s = UB -> bind m k s = UB.
Proof. unfold bind. by intros ->. Qed.

Lemma get_None h s : objs s !! h = None -> get h s = UB.
Proof. unfold get. by intros ->. Qed.

Lemma declare_Some h b s : objs s !! h = Some b -> declare h s = UB.
Proof. unfold declare. by intros ->. Qed.

Lemma ctor_spec s this n junk :
  objs s !! this = None ->
  ctor this n junk s
  = Ret tt {| heap := <[fresh (dom (heap s))
                        := {| use_count := 1; bytes := resize (N.to_nat n) Byte.x00 junk |}]>
                        (heap s);
              objs := <[this := {| ptr := Some (fresh (dom (heap s))); sz := n |}]> (objs s) |}.
Proof.
  intros Hnew. unfold ctor.
  erewrite bind_Ret by (by apply declare_None).
  erewrite bind_Ret by (apply set_sz_Some; simpl; apply lookup_insert_eq).
  erewrite bind_Ret by (apply get_Some; simpl; apply lookup_insert_eq).
  unfold bind at 1. unfold sp_new at 1. simpl.
  erewrite bind_Ret by (apply set_ptr_Some; simpl; apply lookup_insert_eq).
  unfold sp_release. simpl. by rewrite !insert_insert_eq.
Qed.

Lemma dtor_spec s this b :
  objs s !! this = Some b -> live (heap s) (ptr b) ->
  dtor this s = Ret tt {| heap := down (ptr b) (heap s); objs := delete this (objs s) |}.
Proof.
  intros Hb Hlive. unfold dtor.
  rewrite (bind_Ret _ _ _ _ _ (get_Some _ _ _ Hb)).
  by rewrite (bind_Ret _ _ _ _ _ (sp_release_down (ptr b) s Hlive)).
Qed.

Lemma ctor_wf s s' this n junk :
  wf w s -> is_size_t w n -> ctor this n junk s = Ret tt s' -> wf w s'.
Proof.
  intros Hwf Hn Hrun. destruct (objs s !! this) as [b|] eqn:Hthis.
  - unfold ctor in Hrun. by rewrite (bind_UB _ _ _ (declare_Some _ _ _ Hthis)) in Hrun.
  - rewrite ctor_spec in Hrun by done. injection Hrun as <-. by apply wf_ctor.
Qed.

Lemma copy_ctor_wf s s' this other :
  wf w s -> copy_ctor this other s = Ret tt s' -> wf w s'.
Proof.
  intros Hwf Hrun. destruct (objs s !! other) as [o|] eqn:Hother.
  2:{ unfold copy_ctor in Hrun. by rewrite (bind_UB _ _ _ (get_None _ _ Hother)) in Hrun. }
  pose proof (wf_live_ptr w s other o Hwf Hother) as Hlive.
  destruct (objs s !! this) as [b|] eqn:Hthis.
  - unfold copy_ctor in Hrun.
    rewrite (bind_Ret _ _ _ _ _ (get_Some _ _ _ Hother)) in Hrun.
    rewrite (bind_Ret _ _ _ _ _ (sp_acquire_up (ptr o) s Hlive)) in Hrun.
    by erewrite bind_UB in Hrun by (eapply declare_Some; simpl; eauto).
  - rewrite (copy_ctor_spec s this other o) in Hrun; try done.
    + injection Hrun as <-. by apply (wf_copy s this other o).
    + intros l blk Hp Hl. destruct (wf_ptr w s other o l Hwf Hother Hp) as (blk' & Hl' & Hpos).
      congruence.
Qed.

Lemma copy_assign_wf s s' this other :
  wf w s -> copy_assign this other s = Ret tt s' -> wf w s'.
Proof.
  intros Hwf Hrun. destruct (objs s !! other) as [o|] eqn:Hother.
  2:{ unfold copy_assign, sp_copy_assign in Hrun.
      erewrite bind_UB in Hrun; [done|]. by apply bind_UB, get_None. }
  pose proof (wf_live_ptr w s other o Hwf Hother) as Hlive.
  destruct (objs s !! this) as [b|] eqn:Hthis.
  - pose proof (wf_live_ptr w s this b Hwf Hthis) as Hliveb.
    rewrite (copy_assign_spec s this other b o) in Hrun by done.
    injection Hrun as <-. by apply (wf_copy_assign s this other b o).
  - unfold copy_assign, sp_copy_assign in Hrun.
    erewrite bind_UB in Hrun; [done|].
    rewrite (bind_Ret _ _ _ _ _ (get_Some _ _ _ Hother)).
    rewrite (bind_Ret _ _ _ _ _ (sp_acquire_up (ptr o) s Hlive)).
    by apply bind_UB, get_None.
Qed.

Lemma move_ctor_wf s s' this other :
  wf w s -> move_ctor this other s = Ret tt s' -> wf w s'.
Proof.
  intros Hwf Hrun. destruct (objs s !! other) as [o|] eqn:Hother.
  2:{ unfold move_ctor in Hrun. by rewrite (bind_UB _ _ _ (get_None _ _ Hother)) in Hrun. }
  destruct (objs s !! this) as [b|] eqn:Hthis.
  - unfold move_ctor in Hrun.
    rewrite (bind_Ret _ _ _ _ _ (get_Some _ _ _ Hother)) in Hrun.
    erewrite bind_Ret in Hrun by (by apply set_ptr_Some).
    erewrite bind_UB in Hrun; [done|].
    destruct (decide (other = this)) as [->|Hne].
    + eapply declare_Some. simpl. apply lookup_insert_eq.
    + eapply declare_Some. simpl. rewrite lookup_insert_ne by done. eauto.
  - rewrite (move_ctor_spec s this other o) in Hrun by done.
    injection Hrun as <-. by apply (wf_move s this other o).
Qed.

Lemma move_assign_wf s s' this other :
  wf w s -> move_assign this other s = Ret tt s' -> wf w s'.
Proof.
  intros Hwf Hrun. destruct (objs s !! other) as [o|] eqn:Hother.
  2:{ unfold move_assign, sp_move_assign in Hrun.
      erewrite bind_UB in Hrun; [done|]. by apply bind_UB, get_None. }
  destruct (decide (this = other)) as [->|Hne].
  { rewrite (move_assign_self_spec s other o) in Hrun by done.
    injection Hrun as <-. by apply wf_self_moved. }
  destruct (objs s !! this) as [b|] eqn:Hthis.
  - pose proof (wf_live_ptr w s this b Hwf Hthis) as Hliveb.
    rewrite (move_assign_spec s this other b o) in Hrun by done.
    injection Hrun as <-. by apply (wf_move_assign s this other b o).
  - unfold move_assign, sp_move_assign in Hrun.
    erewrite bind_UB in Hrun; [done|].
    rewrite (bind_Ret _ _ _ _ _ (get_Some _ _ _ Hother)).
    erewrite bind_Ret by (by apply set_ptr_Some).
    apply bind_UB, get_None. simpl. by rewrite lookup_insert_ne.
Qed.

Lemma dtor_wf s s' this :
  wf w s -> dtor this s = Ret tt s' -> wf w s'.
Proof.
  intros Hwf Hrun. destruct (objs s !! this) as [b|] eqn:Hthis.
  - rewrite (dtor_spec s this b) in Hrun by (done || by apply (wf_live_ptr w s this b)).
    injection Hrun as <-. by apply wf_dtor.
  - unfold dtor in Hrun. by rewrite (bind_UB _ _ _ (get_None _ _ Hthis)) in Hrun.
Qed.

Lemma write_wf s s' this (i : N) v :
  wf w s -> (let* r := index this i in write r v) s = Ret tt s' -> wf w s'.
Proof.
  intros Hwf Hrun. unfold bind in Hrun.
  destruct (index this i s) as [r s1| | |] eqn:Hidx; try done.
  assert (s1 = s) as ->.
  { unfold index, bind, get in Hidx. destruct (objs s !! this); [|done].
    destruct (_ <? _)%N; [|done]. unfold ret in Hidx. congruence. }
  unfold write in Hrun. destruct (ref_base r) as [l|]; [|done].
  destruct (heap s !! l) as [blk|] eqn:Hl; [|done].
  destruct (bool_decide _); [|done]. injection Hrun as <-. by apply wf_write.
Qed.

(** Every store a program can get to is well formed. *)
Lemma built_wf s : built w s -> wf w s.
Proof.
  induction 1 as [ | s s' this n junk _ IH Hn Hrun | s s' this other _ IH Hrun
                 | s s' this other _ IH Hrun | s s' this other _ IH Hrun
                 | s s' this other _ IH Hrun | s s' this _ IH Hrun
                 | s s' this i v _ IH Hrun ].
  - split; intros k x; unfold empty; simpl; by rewrite lookup_empty.
  - by apply (ctor_wf s s' this n junk).
  - by apply (copy_ctor_wf s s' this other).
  - by apply (copy_assign_wf s s' this other).
  - by apply (move_ctor_wf s s' this other).
  - by apply (move_assign_wf s s' this other).
  - by apply (dtor_wf s s' this).
  - by apply (write_wf s s' this i v).
Qed.
End invariant.

(** ** Range-for and the test program *)

Section range_facts.
Import shared_buf.
Variable w : N.

(** The loop of a range-for from position [i] on hands the body the bytes
    at [i], [i + 1], ..., [sz - 1], in this order. *)
Lemma range_loop_visits V s (p : option loc) (sz : N) :
  is_size_t w sz ->
  forall (k fuel : nat) (i : N) (seen : list ref),
    N.to_nat sz = (N.to_nat i + k)%nat -> (k <= fuel)%nat ->
    range_loop w fuel (@iterator_.Mk V p sz i) (iterator_.Mk p sz sz) visit seen s
    = Ret (seen ++ map (fun j => Ref p (N.of_nat j)) (seq (N.to_nat i) k)) s.
Proof.
  intros Hsz. induction k as [|k IH]; intros fuel i seen Hk Hfuel.
  - assert (i = sz) as -> by lia.
    assert (Hne : iterator_.ne (@iterator_.Mk V p sz sz) (iterator_.Mk p sz sz) = false).
    { unfold iterator_.ne. simpl. rewrite N.eqb_refl.
      by rewrite bool_decide_eq_false_2 by (intros Hne; by apply Hne). }
    destruct fuel; simpl; rewrite Hne; by rewrite app_nil_r.
  - destruct fuel as [|fuel]; [lia|]. cbn [range_loop].
    assert (Hne : iterator_.ne (@iterator_.Mk V p sz i) (iterator_.Mk p sz sz) = true).
    { unfold iterator_.ne. simpl. destruct (N.eqb_spec i sz); [lia|].
      simpl. apply orb_true_r. }
    rewrite Hne. unfold iterator_.deref, iterator_.pre_inc. simpl.
    destruct (N.ltb_spec i sz); [|lia]. simpl.
    unfold bind at 1. unfold ret at 1. unfold bind at 1. unfold visit at 1, ret at 1.
    unfold iterator_.set_i. simpl.
    rewrite wrap_small by (unfold is_size_t in *; lia).
    rewrite IH by lia. f_equal. rewrite <- app_assoc. simpl.
    replace (N.to_nat (i + 1)) with (S (N.to_nat i)) by lia.
    by rewrite N2Nat.id.
Qed.

(** A range-for over a buffer that holds an array hands its body every
    byte once, first to last. *)
Lemma range_for_visits V s h b :
  objs s !! h = Some b -> ptr b <> None -> is_size_t w (sz b) ->
  @range_for w V (list ref) h visit [] s
  = Ret (map (fun j => Ref (ptr b) (N.of_nat j)) (seq 0 (N.to_nat (sz b)))) s.
Proof.
  intros Hb Hp Hsz. unfold range_for.
  destruct (begin_end V s h b Hb Hp) as [Hbegin Hend].
  rewrite (bind_Ret _ _ _ _ _ Hbegin), (bind_Ret _ _ _ _ _ Hend).
  destruct (ctor_position V (ptr b) (sz b) (sz b)) as (_ & -> & _).
  assert (@iterator_.ctor V (ptr b) (sz b) 0 = iterator_.Mk (ptr b) (sz b) 0) as ->.
  { unfold iterator_.ctor. simpl. by destruct (N.ltb_spec (sz b) 0); [lia|]. }
  assert (@iterator_.ctor V (ptr b) (sz b) (sz b) = iterator_.Mk (ptr b) (sz b) (sz b)) as ->.
  { unfold iterator_.ctor. simpl. by rewrite N.ltb_irrefl. }
  by rewrite (range_loop_visits V s (ptr b) (sz b) Hsz (N.to_nat (sz b)) _ 0 []) by lia.
Qed.

(** The test program prints the filled buffer, then the three buffers: the
    original and the moved-to one both show the 0 written through the copy,
    the moved-from copy is empty. *)
Lemma main_prints :
  exists cout s,
    test_shared_buf.main 64 [] ostream.fresh_sink empty = Ret cout s
    /\ test_shared_buf.lines cout
       = [ "[1h,2h,3h,4h,5h,6h,7h,8h,9h,ah]";
           "buf=[1h,2h,0h,4h,5h,6h,7h,8h,9h,ah]";
           "buf=[]";
           "buf=[1h,2h,0h,4h,5h,6h,7h,8h,9h,ah]" ]%string
    /\ ostream.fmt cout = ostream.fmt ostream.fresh_sink.
Proof. do 2 eexists. split; [vm_compute; reflexivity|]. split; vm_compute; reflexivity. Qed.
End range_facts.

(** ** More on cursors *)

Section cursor_algebra.
Import iterator_.
Variable w : N.

(** Where [operator+=] leaves a cursor that was in bounds. *)
Lemma add_assign_closed V (it : t V) (n : N) :
  is_size_t w (sz it) -> (i it <= sz it)%N -> is_size_t w n ->
  add_assign w it n = set_i it (N.min (i it + n) (sz it)).
Proof.
  intros Hs Hle Hn. unfold add_assign.
  destruct (N.lt_ge_cases (i it + n) (2 ^ w)) as [Hfit | Hov].
  - rewrite (wrap_small w (i it + n)) by exact Hfit.
    destruct (N.ltb_spec (i it + n) (i it)); [lia|]. simpl.
    destruct (N.ltb_spec (sz it) (i it + n)); f_equal; lia.
  - assert (Hi : is_size_t w (i it)) by (unfold is_size_t in *; lia).
    rewrite wrap_add_overflow by done. unfold is_size_t in *.
    destruct (N.ltb_spec (i it + n - 2 ^ w) (i it)); [|lia]. simpl.
    f_equal. lia.
Qed.

(** Where [k] increments leave a cursor that was in bounds. *)
Lemma iter_pre_inc_closed V (it : t V) (k : nat) :
  is_size_t w (sz it) -> (i it <= sz it)%N ->
  Nat.iter k (pre_inc w) it = set_i it (N.min (i it + N.of_nat k) (sz it)).
Proof.
  intros Hs Hle.
  destruct (iter_pre_inc_fields w V it k) as [Hsz Hbase].
  apply t_ext; simpl; [done|done|]. by apply iter_pre_inc_position.
Qed.

(** X2. Two cursors compare equal with [operator==] exactly when they have
    the same base pointer, the same size and the same position, and
    [operator!=] is its negation. *)
Theorem cursor_equality V (a b : t V) :
  (eq a b = true <-> a = b) /\ ne a b = negb (eq a b).
Proof.
  split.
  - unfold eq. rewrite !andb_true_iff, bool_decide_eq_true, !N.eqb_eq. split.
    + intros [[Hb Hs] Hi]. by apply t_ext.
    + by intros ->.
  - unfold ne, eq. rewrite !negb_andb.
    assert (bool_decide (base_ptr a ≠ base_ptr b)
            = negb (bool_decide (base_ptr a = base_ptr b))) as ->; [|done].
    destruct (decide (base_ptr a = base_ptr b)) as [Heq | Hne].
    + rewrite (bool_decide_eq_true_2 _ Heq).
      by rewrite bool_decide_eq_false_2 by (by intros Hn).
    + rewrite (bool_decide_eq_false_2 _ Hne). by rewrite bool_decide_eq_true_2.
Qed.

(** X3. On a cursor in bounds, [it += n] is [n] times [++it]. *)
Theorem bulk_advance_is_repeated_step V (it : t V) (n : N) :
  is_size_t w (sz it) -> (i it <= sz it)%N -> is_size_t w n ->
  add_assign w it n = Nat.iter (N.to_nat n) (pre_inc w) it.
Proof.
  intros Hs Hle Hn.
  rewrite add_assign_closed, iter_pre_inc_closed by done.
  by rewrite N2Nat.id.
Qed.

(** X4. Bulk advances add up: [(it += a) += b] is [it += (a + b)] when
    [a + b] is a [size_t] value. *)
Theorem bulk_advances_add_up V (it : t V) (a b : N) :
  is_size_t w (sz it) -> (i it <= sz it)%N -> is_size_t w (a + b) ->
  add_assign w (add_assign w it a) b = add_assign w it (a + b).
Proof.
  intros Hs Hle Hab.
  assert (Ha : is_size_t w a) by (unfold is_size_t in *; lia).
  assert (Hb : is_size_t w b) by (unfold is_size_t in *; lia).
  rewrite (add_assign_closed V it a), (add_assign_closed V it (a + b)) by done.
  rewrite add_assign_closed; simpl; [|done|lia|done].
  unfold set_i. simpl. f_equal. lia.
Qed.

(** X5. Distance undoes advance.  For a cursor in bounds,
    [(it += n) - it] is [n], cut down to the bytes that were left, and
    advancing the [begin()] cursor by [it - begin()] gives [it] back. *)
Theorem distance_undoes_advance V (it : t V) (n : N) :
  is_size_t w (sz it) -> (i it <= sz it)%N -> is_size_t w n ->
  sub w (add_assign w it n) it = N.min n (sz it - i it)
  /\ add_assign w (@ctor V (base_ptr it) (sz it) 0)
                  (sub w it (@ctor V (base_ptr it) (sz it) 0)) = it.
Proof.
  intros Hs Hle Hn. unfold is_size_t in *. split.
  - rewrite add_assign_closed by done. unfold sub. simpl.
    destruct (N.ltb_spec (N.min (i it + n) (sz it)) (i it)); [lia|].
    rewrite sub_sz_le by (unfold is_size_t; lia). lia.
  - destruct (ctor_position V (base_ptr it) (sz it) 0) as (Hi0 & Hs0 & Hb0).
    assert (Hsub : sub w it (@ctor V (base_ptr it) (sz it) 0) = i it).
    { unfold sub. rewrite Hi0.
      replace (N.min 0 (sz it)) with 0%N by lia.
      destruct (N.ltb_spec (i it) 0); [lia|].
      rewrite sub_sz_le by (unfold is_size_t; lia). lia. }
    rewrite Hsub, add_assign_closed; rewrite ?Hi0, ?Hs0; unfold is_size_t; try lia.
    apply t_ext; simpl; [done|done|lia].
Qed.

(** X6. The conversion to a read-only cursor keeps base pointer, size and
    position of a cursor in bounds, so it keeps what [operator*] gives and
    whether two cursors compare equal. *)
Theorem const_conversion_keeps_cursor V (a b : t V) :
  (i a <= sz a)%N -> (i b <= sz b)%N ->
  to_const a = Mk (base_ptr a) (sz a) (i a)
  /\ deref (to_const a) = deref a
  /\ eq (to_const a) (to_const b) = eq a b.
Proof.
  intros Ha Hb.
  assert (Hconv : forall c : t V, (i c <= sz c)%N ->
                    to_const c = Mk (base_ptr c) (sz c) (i c)).
  { intros c Hc. unfold to_const, ctor. simpl.
    by destruct (N.ltb_spec (sz c) (i c)); [lia|]. }
  rewrite !Hconv by done. by split_and!.
Qed.
End cursor_algebra.

(** ** More on buffers: iteration, indexing, the owner counts *)

Section buffer_observations.
Import shared_buf.
Variable w : N.

(** A cursor over a buffer has the buffer's pointer, which is not empty,
    and the buffer's size, and stands in bounds. *)
Lemma cursor_of_fields V s h b (it : iterator_.t V) :
  objs s !! h = Some b -> cursor_of w s h V it ->
  ptr b <> None /\ iterator_.base_ptr it = ptr b /\ iterator_.sz it = sz b
  /\ (iterator_.i it <= sz b)%N.
Proof.
  intros Hb Hc.
  assert (Hget : forall V' (it' : iterator_.t V') (n : N),
            (let* b0 := get h in let* base := sp_addr0 (ptr b0) in
             ret (@iterator_.ctor V' base (sz b0) n)) s = Ret it' s ->
            ptr b <> None /\ iterator_.base_ptr it' = ptr b /\ iterator_.sz it' = sz b
            /\ (iterator_.i it' <= sz b)%N).
  { intros V' it' n. rewrite (bind_Ret _ _ _ _ _ (get_Some _ _ _ Hb)).
    destruct (ptr b) as [l|] eqn:Hp; [|discriminate]. simpl.
    intros [= <-]. split; [done|].
    destruct (ctor_position V' (Some l) (sz b) n) as (-> & -> & ->).
    split_and!; try done. lia. }
  induction Hc as [V it Hit|V it Hit|V it _ IH|V it other _ IHit _ IH|V it _ IH
                   |V it _ IH|V it _ IH|V it n _ IH|V it _ IH].
  - unfold begin_ in Hit. by apply (Hget V it 0%N).
  - unfold end_ in Hit. rewrite (bind_Ret _ _ _ _ _ (get_Some _ _ _ Hb)) in Hit.
    apply (Hget V it (sz b)). by rewrite (bind_Ret _ _ _ _ _ (get_Some _ _ _ Hb)).
  - done.
  - done.
  - destruct IH as (Hp & Hbase & Hsz & Hi). unfold iterator_.pre_inc.
    destruct (N.ltb_spec (iterator_.i it) (iterator_.sz it)); [|done]. simpl.
    split_and!; try done. pose proof (wrap_le w (iterator_.i it + 1)). lia.
  - done.
  - destruct IH as (Hp & Hbase & Hsz & Hi). simpl. unfold iterator_.pre_inc.
    destruct (N.ltb_spec (iterator_.i it) (iterator_.sz it)); [|done]. simpl.
    split_and!; try done. pose proof (wrap_le w (iterator_.i it + 1)). lia.
  - destruct IH as (Hp & Hbase & Hsz & Hi). unfold iterator_.add_assign.
    destruct (_ || _) eqn:Hclamp; simpl; split_and!; try done; [lia|].
    apply orb_false_iff in Hclamp as [_ Hle]. apply N.ltb_ge in Hle. lia.
  - destruct IH as (Hp & Hbase & Hsz & Hi). unfold iterator_.to_const.
    destruct (ctor_position const_uint8_t (iterator_.base_ptr it) (iterator_.sz it)
                (iterator_.i it)) as (-> & -> & ->).
    split_and!; try done. lia.
Qed.

(** X1. Every cursor over a buffer that a program can hold (returned by
    [begin()] or [end()], then copied, assigned, incremented, advanced or
    converted to a read-only cursor) has its position in [0, size()].
    [operator*] succeeds exactly when the position is below [size()]; the
    reference it gives is to the byte of the buffer at that position, the
    one [operator[]] gives, and [ptr()] gives the same address.  At
    position [size()], [operator*] throws. *)
Theorem reachable_cursor_is_safe V s h b (it : iterator_.t V) :
  wf w s -> objs s !! h = Some b -> cursor_of w s h V it ->
  (iterator_.i it <= sz b)%N
  /\ ((iterator_.i it < sz b)%N <-> exists r, iterator_.deref it = Ok r)
  /\ (forall r, iterator_.deref it = Ok r ->
        iterator_.ptr it = Ok r
        /\ r = Ref (ptr b) (iterator_.i it)
        /\ index h (iterator_.i it) s = Ret r s
        /\ exists v, read r s = Ret v s
                     /\ contents s b !! N.to_nat (iterator_.i it) = Some v
                     /\ index_const h (iterator_.i it) s = Ret v s)
  /\ (iterator_.i it = sz b ->
      exists msg, iterator_.deref it = Throw (out_of_range msg)).
Proof.
  intros Hwf Hb Hc.
  destruct (cursor_of_fields V s h b it Hb Hc) as (_ & Hbase & Hsz & Hi).
  split; [done|]. unfold iterator_.deref, iterator_.ptr. rewrite Hsz, Hbase.
  destruct (N.ltb_spec (iterator_.i it) (sz b)) as [Hlt | Hge].
  - split_and!; [split; eauto| |lia].
    intros r [= <-]. split_and!; try done.
    + by destruct (index_lt s h b (iterator_.i it) Hb Hlt).
    + destruct (index_in_range_iff w s h b (iterator_.i it) Hwf Hb) as [_ Hin].
      destruct (Hin Hlt) as (l & blk & v & Hp & Hl & Hv & _ & Hread & Hconst).
      exists v. rewrite Hp. split_and!; try done.
      unfold contents. rewrite Hp, Hl. by rewrite lookup_take_lt by lia.
  - split_and!; [split; [lia|by intros [r Hr]]|by intros r Hr|eauto].
Qed.

(** X7. For a buffer that holds an array (one not moved from), the cursor
    [k] places after [begin()], reached by [+= k] or by [k] increments,
    refers to the byte [operator[]](k) refers to; from [sz] on
    dereferencing it throws, as indexing does. *)
Theorem cursor_agrees_with_index V s h b (k : N) :
  objs s !! h = Some b -> ptr b <> None -> is_size_t w (sz b) -> is_size_t w k ->
  exists it,
    @begin_ V h s = Ret it s
    /\ Nat.iter (N.to_nat k) (iterator_.pre_inc w) it = iterator_.add_assign w it k
    /\ ((k < sz b)%N -> lift (iterator_.deref (iterator_.add_assign w it k)) s = index h k s)
    /\ ((sz b <= k)%N ->
        (exists msg, iterator_.deref (iterator_.add_assign w it k) = Throw (out_of_range msg))
        /\ index h k s = Raise (out_of_range index_what) s).
Proof.
  intros Hb Hptr Hsz Hk. destruct (begin_end V s h b Hb Hptr) as [Hbegin _].
  eexists. split; [exact Hbegin|].
  assert (@iterator_.ctor V (ptr b) (sz b) 0 = iterator_.Mk (ptr b) (sz b) 0) as ->.
  { unfold iterator_.ctor. simpl. by destruct (N.ltb_spec (sz b) 0); [lia|]. }
  assert (Hadv : iterator_.add_assign w (@iterator_.Mk V (ptr b) (sz b) 0) k
                 = iterator_.Mk (ptr b) (sz b) (N.min k (sz b))).
  { rewrite add_assign_closed by (simpl; try done; lia). done. }
  split_and!.
  - rewrite Hadv, iter_pre_inc_closed by (simpl; try done; lia).
    unfold iterator_.set_i. simpl. f_equal. lia.
  - intros Hlt. rewrite Hadv. unfold iterator_.deref. simpl.
    destruct (N.ltb_spec (N.min k (sz b)) (sz b)); [|lia].
    destruct (index_lt s h b k Hb Hlt) as [-> _].
    simpl. unfold ret. do 2 f_equal. lia.
  - intros Hge. split.
    + rewrite Hadv. unfold iterator_.deref. simpl.
      destruct (N.ltb_spec (N.min k (sz b)) (sz b)); [lia|]. eauto.
    + by destruct (index_ge s h b k Hb Hge).
Qed.

(** The loop of a range-for that reads: from position [i] on it collects the
    bytes at [i], [i + 1], ..., [sz - 1]. *)
Lemma range_loop_reads V s (l : loc) blk (sz : N) :
  heap s !! l = Some blk -> (N.to_nat sz <= length (bytes blk))%nat ->
  is_size_t w sz ->
  forall (k fuel : nat) (i : N) (seen : list Byte.byte),
    N.to_nat sz = (N.to_nat i + k)%nat -> (k <= fuel)%nat ->
    range_loop w fuel (@iterator_.Mk V (Some l) sz i) (iterator_.Mk (Some l) sz sz)
               read_into seen s
    = Ret (seen ++ take k (drop (N.to_nat i) (bytes blk))) s.
Proof.
  intros Hl Hlen Hsz. induction k as [|k IH]; intros fuel i seen Hk Hfuel.
  - assert (i = sz) as -> by lia.
    assert (Hne : iterator_.ne (@iterator_.Mk V (Some l) sz sz) (iterator_.Mk (Some l) sz sz)
                  = false).
    { unfold iterator_.ne. simpl. rewrite N.eqb_refl.
      by rewrite bool_decide_eq_false_2 by (intros Hne; by apply Hne). }
    destruct fuel; simpl; rewrite Hne; by rewrite app_nil_r.
  - destruct fuel as [|fuel]; [lia|]. cbn [range_loop].
    assert (Hne : iterator_.ne (@iterator_.Mk V (Some l) sz i) (iterator_.Mk (Some l) sz sz)
                  = true).
    { unfold iterator_.ne. simpl. destruct (N.eqb_spec i sz); [lia|].
      simpl. apply orb_true_r. }
    rewrite Hne. unfold iterator_.deref, iterator_.pre_inc. simpl.
    destruct (N.ltb_spec i sz); [|lia]. simpl.
    destruct (lookup_lt_is_Some_2 (bytes blk) (N.to_nat i)) as [v Hv]; [lia|].
    assert (Hread : read_into (Ref (Some l) i) seen s = Ret (seen ++ [v]) s).
    { unfold read_into, bind, read. simpl. by rewrite Hl, Hv. }
    unfold bind at 1. unfold ret at 1. rewrite (bind_Ret _ _ _ _ _ Hread).
    unfold iterator_.set_i. simpl.
    rewrite wrap_small by (unfold is_size_t in *; lia).
    rewrite IH by lia. f_equal. rewrite <- app_assoc. simpl.
    replace (N.to_nat (i + 1)) with (S (N.to_nat i)) by lia.
    by rewrite (drop_S _ _ _ Hv).
Qed.

(** X8. A range-for over a buffer that holds an array (one not moved from)
    reads exactly its bytes, first to last: [size()] of them, the bytes
    [operator[]] gives at 0, 1, ..., [size() - 1]. *)
Theorem range_for_reads_contents V s h b :
  wf w s -> objs s !! h = Some b -> ptr b <> None ->
  @range_for w V (list Byte.byte) h read_into [] s = Ret (contents s b) s
  /\ size h s = Ret (N.of_nat (length (contents s b))) s
  /\ length (contents s b) = N.to_nat (sz b)
  /\ (forall (i : N) v, contents s b !! N.to_nat i = Some v -> index_const h i s = Ret v s).
Proof.
  intros Hwf Hb Hptr.
  assert (Hlen : length (contents s b) = N.to_nat (sz b)).
  { destruct (N.eq_dec (sz b) 0%N) as [Hz | Hnz].
    - unfold contents. rewrite Hz. destruct (ptr b); [|done].
      by destruct (heap s !! _).
    - destruct (wf_live w s h b Hwf Hb) as (l & blk & Hp & Hl & Hlen & _); [lia|].
      unfold contents. rewrite Hp, Hl, length_take. lia. }
  split_and!; [| |done|].
  2:{ unfold size. rewrite (bind_Ret _ _ _ _ _ (get_Some _ _ _ Hb)).
      unfold ret. do 2 f_equal. lia. }
  - destruct (N.eq_dec (sz b) 0%N) as [Hz | Hnz].
    + rewrite (range_for_empty w V _ s h b) by done.
      destruct (contents s b); [done|]. simpl in Hlen. lia.
    + destruct (wf_live w s h b Hwf Hb) as (l & blk & Hp & Hl & Hlenb & _); [lia|].
      destruct (wf_sized w s h b Hwf Hb) as (Hsz & _).
      unfold range_for.
      destruct (begin_end V s h b Hb Hptr) as [Hbegin Hend].
      rewrite (bind_Ret _ _ _ _ _ Hbegin), (bind_Ret _ _ _ _ _ Hend).
      destruct (ctor_position V (ptr b) (sz b) (sz b)) as (_ & -> & _).
      assert (@iterator_.ctor V (ptr b) (sz b) 0 = iterator_.Mk (Some l) (sz b) 0) as ->.
      { unfold iterator_.ctor. simpl. rewrite Hp.
        by destruct (N.ltb_spec (sz b) 0); [lia|]. }
      assert (@iterator_.ctor V (ptr b) (sz b) (sz b) = iterator_.Mk (Some l) (sz b) (sz b))
        as ->.
      { unfold iterator_.ctor. simpl. by rewrite Hp, N.ltb_irrefl. }
      rewrite (range_loop_reads V s l blk (sz b) Hl) with (k := N.to_nat (sz b));
        try done; try lia.
      unfold contents. by rewrite Hp, Hl.
  - intros i v Hv.
    assert (Hi : (i < sz b)%N).
    { apply lookup_lt_Some in Hv. lia. }
    destruct (index_lt s h b i Hb Hi) as [_ ->].
    destruct (wf_live w s h b Hwf Hb) as (l & blk & Hp & Hl & _); [lia|].
    unfold contents in Hv. rewrite Hp, Hl in Hv.
    rewrite lookup_take_lt in Hv by lia.
    unfold read. simpl. by rewrite Hp, Hl, Hv.
Qed.

(** X9. [operator[]] of the current header, in both forms, throws
    [std::out_of_range] exactly when the index is not below [size()];
    otherwise the read-only form returns the byte at that index and the
    other form a reference through which the same byte is read.  The store
    is the same afterwards in every case. *)
Theorem index_checks_bounds s h b (i : N) :
  wf w s -> objs s !! h = Some b ->
  ((sz b <= i)%N <-> index h i s = Raise (out_of_range index_what) s)
  /\ ((sz b <= i)%N <-> index_const h i s = Raise (out_of_range index_what) s)
  /\ ((i < sz b)%N <->
      exists v r, contents s b !! N.to_nat i = Some v
                  /\ index_const h i s = Ret v s
                  /\ index h i s = Ret r s /\ read r s = Ret v s).
Proof.
  intros Hwf Hb.
  destruct (index_in_range_iff w s h b i Hwf Hb) as [Hout Hin].
  destruct (N.lt_ge_cases i (sz b)) as [Hlt | Hge].
  - destruct (Hin Hlt) as (l & blk & v & Hp & Hl & Hv & Hidx & Hread & Hc).
    split_and!.
    + split; [lia|]. rewrite Hidx. discriminate.
    + split; [lia|]. rewrite Hc. discriminate.
    + split; [|done]. intros _. exists v, (Ref (Some l) i). split_and!; try done.
      unfold contents. rewrite Hp, Hl. rewrite lookup_take_lt by lia. done.
  - destruct (Hout Hge) as [Hidx Hc]. split_and!; [done|done|].
    split; [lia|]. intros (v & r & _ & Hc' & _). congruence.
Qed.
End buffer_observations.

(** ** What the special members leave alone *)

Section frames.
Import shared_buf.
Variable w : N.

(** Releasing what [this] holds, after perhaps acquiring [q], keeps every
    array some other object holds, bytes and all. *)
Lemma released_keeps_shared s this b q l blk h' b' :
  wf w s -> objs s !! this = Some b -> heap s !! l = Some blk ->
  h' <> this -> objs s !! h' = Some b' -> ptr b' = Some l ->
  exists blk', down (ptr b) (up q (heap s)) !! l = Some blk' /\ bytes blk' = bytes blk.
Proof.
  intros Hwf Hb Hl Hne Hb' Hp'.
  rewrite down_lookup, up_lookup, Hl.
  destruct (decide (ptr b = Some l)) as [Hp | Hp].
  - pose proof (owners_two (objs s) h' this b' b l Hne Hb' Hb Hp' Hp) as Htwo.
    pose proof (wf_counted w s Hwf l) as Hc. unfold counted in Hc. rewrite Hl in Hc.
    destruct Hc as [Hc _].
    destruct (decide (q = Some l)); simpl.
    + destruct (_ <=? 1)%N eqn:Hle; [apply N.leb_le in Hle; lia|]. eauto.
    + destruct (_ <=? 1)%N eqn:Hle; [apply N.leb_le in Hle; lia|]. eauto.
  - destruct (decide (q = Some l)); simpl; eauto.
Qed.

(** Releasing the array [this] alone holds frees it. *)
Lemma released_last_owner s this b q l :
  wf w s -> objs s !! this = Some b -> ptr b = Some l -> q <> Some l ->
  (forall h' b', h' <> this -> objs s !! h' = Some b' -> ptr b' <> Some l) ->
  down (ptr b) (up q (heap s)) !! l = None.
Proof.
  intros Hwf Hb Hp Hq Hnone.
  rewrite down_lookup, up_lookup.
  rewrite decide_True by done. rewrite decide_False by done.
  destruct (heap s !! l) as [blk|] eqn:Hl; [|done].
  pose proof (wf_counted w s Hwf l) as Hc. unfold counted in Hc. rewrite Hl in Hc.
  destruct Hc as [Hc _].
  pose proof (owners_delete (objs s) this l) as Hdel. rewrite Hb in Hdel.
  rewrite (owners_zero (delete this (objs s)) l) in Hdel.
  2:{ intros h' b' Hb'. apply lookup_delete_Some in Hb' as [Hne Hb']. by eapply Hnone. }
  simpl in Hdel. rewrite decide_True in Hdel by done.
  destruct (_ <=? 1)%N eqn:Hle; [done|]. apply N.leb_gt in Hle. lia.
Qed.

(** What an object offers depends on the bytes of the array it holds. *)
Lemma contents_frame s s' b' :
  (forall l blk, ptr b' = Some l -> heap s !! l = Some blk ->
     exists blk', heap s' !! l = Some blk' /\ bytes blk' = bytes blk) ->
  live (heap s) (ptr b') ->
  contents s' b' = contents s b'.
Proof.
  intros Hsame Hlive. unfold contents. destruct (ptr b') as [l|] eqn:Hp; [|done].
  destruct (Hlive l eq_refl) as [blk Hl].
  destruct (Hsame l blk eq_refl Hl) as (blk' & -> & Hbytes). by rewrite Hl, Hbytes.
Qed.

(** X10. The destructor removes the object and nothing else: every other
    buffer is still there with the bytes it had, and the array the object
    held is freed exactly when no other buffer holds it. *)
Theorem dtor_frees_only_unshared s this b :
  wf w s -> objs s !! this = Some b ->
  exists s',
    dtor this s = Ret tt s' /\ wf w s'
    /\ objs s' = delete this (objs s)
    /\ (forall h' b', h' <> this -> objs s !! h' = Some b' ->
          objs s' !! h' = Some b' /\ contents s' b' = contents s b')
    /\ (forall l, ptr b = Some l ->
          (heap s' !! l = None
           <-> forall h' b', h' <> this -> objs s !! h' = Some b' -> ptr b' <> Some l))
    /\ (forall l, ptr b <> Some l -> heap s' !! l = heap s !! l).
Proof.
  intros Hwf Hb. eexists. split.
  { apply dtor_spec; [done|]. by apply (wf_live_ptr w s this b). }
  split; [by apply wf_dtor|]. split; [done|]. simpl. split_and!.
  - intros h' b' Hne Hb'. split; [by rewrite lookup_delete_ne|].
    apply contents_frame; [|by apply (wf_live_ptr w s h' b')].
    intros l blk Hp' Hl. simpl.
    by apply (released_keeps_shared s this b None l blk h' b').
  - intros l Hp. split.
    + intros Hfreed h' b' Hne Hb' Hp'.
      destruct (wf_ptr w s h' b' l Hwf Hb' Hp') as (blk & Hl & _).
      destruct (released_keeps_shared s this b None l blk h' b') as (blk' & Hl' & _);
        try done.
      simpl in Hl'. congruence.
    + intros Hnone. by apply (released_last_owner s this b None l).
  - intros l Hp. rewrite down_lookup. by rewrite decide_False.
Qed.

(** X11. Copy assignment makes [this] offer what [other] offers, keeps the
    bytes of every other buffer, and frees the array [this] held exactly
    when neither [other] nor any other buffer holds it. *)
Theorem copy_assign_releases_old s this other b o :
  wf w s -> objs s !! this = Some b -> objs s !! other = Some o ->
  exists s',
    copy_assign this other s = Ret tt s' /\ wf w s'
    /\ objs s' = <[this := o]> (objs s)
    /\ contents s' o = contents s o
    /\ (forall h' b', h' <> this -> objs s !! h' = Some b' -> contents s' b' = contents s b')
    /\ (forall l, ptr b = Some l -> ptr o <> Some l ->
          (heap s' !! l = None
           <-> forall h' b', h' <> this -> objs s !! h' = Some b' -> ptr b' <> Some l)).
Proof.
  intros Hwf Hb Ho. eexists. split.
  { apply copy_assign_spec; try done; by eapply (wf_live_ptr w s). }
  split; [by apply (wf_copy_assign w s this other b o)|]. split; [done|].
  assert (Hframe : forall h' b', h' <> this -> objs s !! h' = Some b' ->
            contents {| heap := down (ptr b) (up (ptr o) (heap s));
                        objs := <[this := o]> (objs s) |} b' = contents s b').
  { intros h' b' Hne Hb'.
    apply contents_frame; [|by apply (wf_live_ptr w s h' b')].
    intros l blk Hp' Hl. simpl.
    by apply (released_keeps_shared s this b (ptr o) l blk h' b'). }
  split_and!; [|done|].
  - destruct (decide (other = this)) as [-> | Hne]; [|by apply (Hframe other)].
    assert (o = b) as -> by congruence.
    unfold contents. simpl. rewrite down_up; [done|].
    intros l blk Hp Hl. destruct (wf_ptr w s this b l Hwf Hb Hp) as (blk' & Hl' & Hpos).
    congruence.
  - intros l Hp Hq. simpl. split.
    + intros Hfreed h' b' Hne Hb' Hp'.
      destruct (wf_ptr w s h' b' l Hwf Hb' Hp') as (blk & Hl & _).
      destruct (released_keeps_shared s this b (ptr o) l blk h' b') as (blk' & Hl' & _);
        try done.
      congruence.
    + intros Hnone. by apply (released_last_owner s this b (ptr o) l).
Qed.

(** X12. Move assignment between two buffers hands [this] the bytes of
    [other], keeps the bytes of every third buffer, and frees the array
    [this] held exactly when no other buffer holds it. *)
Theorem move_assign_releases_old s this other b o :
  wf w s -> this <> other -> objs s !! this = Some b -> objs s !! other = Some o ->
  exists s',
    move_assign this other s = Ret tt s' /\ wf w s'
    /\ objs s' = <[other := moved_from]> (<[this := o]> (objs s))
    /\ contents s' o = contents s o
    /\ (forall h' b', h' <> this -> h' <> other -> objs s !! h' = Some b' ->
          objs s' !! h' = Some b' /\ contents s' b' = contents s b')
    /\ (forall l, ptr b = Some l ->
          (heap s' !! l = None
           <-> forall h' b', h' <> this -> objs s !! h' = Some b' -> ptr b' <> Some l)).
Proof.
  intros Hwf Hne Hb Ho. eexists. split.
  { apply move_assign_spec; try done. by eapply (wf_live_ptr w s). }
  split; [by apply (wf_move_assign w s this other b o)|]. split; [done|].
  assert (Hframe : forall h' b', h' <> this -> objs s !! h' = Some b' ->
            contents {| heap := down (ptr b) (heap s);
                        objs := <[other := moved_from]> (<[this := o]> (objs s)) |} b'
            = contents s b').
  { intros h' b' Hne' Hb'.
    apply contents_frame; [|by apply (wf_live_ptr w s h' b')].
    intros l blk Hp' Hl. simpl.
    by apply (released_keeps_shared s this b None l blk h' b'). }
  split_and!.
  - by apply (Hframe other).
  - intros h' b' Hn1 Hn2 Hb'. split; [|by apply (Hframe h')].
    simpl. by rewrite !lookup_insert_ne.
  - intros l Hp. simpl. split.
    + intros Hfreed h' b' Hne' Hb' Hp'.
      destruct (wf_ptr w s h' b' l Hwf Hb' Hp') as (blk & Hl & _).
      destruct (released_keeps_shared s this b None l blk h' b') as (blk' & Hl' & _);
        try done.
      simpl in Hl'. congruence.
    + intros Hnone. by apply (released_last_owner s this b None l).
Qed.

(** X13. Assigning a buffer to itself by copy changes nothing at all: the
    objects, the arrays and the use counts are as before. *)
Theorem copy_self_assign_is_noop s this b :
  wf w s -> objs s !! this = Some b -> copy_assign this this s = Ret tt s.
Proof.
  intros Hwf Hb.
  rewrite (copy_assign_spec s this this b b) by (try done; by eapply (wf_live_ptr w s)).
  rewrite down_up.
  2:{ intros l blk Hp Hl. destruct (wf_ptr w s this b l Hwf Hb Hp) as (blk' & Hl' & Hpos).
      congruence. }
  rewrite insert_id by done. by destruct s.
Qed.

(** X14. The constructor makes a buffer of the size asked for on an array
    that was not allocated before, with one owner; the buffers that were
    there keep their members and their bytes. *)
Theorem ctor_makes_fresh_storage s this (n : N) junk :
  wf w s -> objs s !! this = None -> is_size_t w n ->
  exists s' l,
    ctor this n junk s = Ret tt s' /\ wf w s'
    /\ heap s !! l = None
    /\ objs s' !! this = Some {| ptr := Some l; sz := n |}
    /\ size this s' = Ret n s'
    /\ heap s' !! l = Some {| use_count := 1; bytes := resize (N.to_nat n) Byte.x00 junk |}
    /\ contents s' {| ptr := Some l; sz := n |} = resize (N.to_nat n) Byte.x00 junk
    /\ (forall h' b', objs s !! h' = Some b' ->
          objs s' !! h' = Some b' /\ contents s' b' = contents s b').
Proof.
  intros Hwf Hnone Hn.
  assert (Hfresh : heap s !! fresh (dom (heap s)) = None).
  { apply not_elem_of_dom, is_fresh. }
  eexists _, (fresh (dom (heap s))). split; [by apply ctor_spec|].
  split; [by apply wf_ctor|]. split; [done|]. simpl.
  split_and!.
  - by rewrite lookup_insert_eq.
  - unfold size. erewrite bind_Ret by (apply get_Some; simpl; apply lookup_insert_eq). done.
  - by rewrite lookup_insert_eq.
  - unfold contents. simpl. rewrite lookup_insert_eq. simpl.
    apply take_ge. by rewrite length_resize.
  - intros h' b' Hb'. split.
    + rewrite lookup_insert_ne; [done|]. congruence.
    + apply contents_frame; [|by apply (wf_live_ptr w s h' b')].
      intros l blk Hp Hl. simpl. exists blk. split; [|done].
      rewrite lookup_insert_ne; [done|]. congruence.
Qed.

(** X15. [b[i] = v] with [i] in range replaces byte [i] of the array and
    nothing else: the buffers that hold the same array see the new byte,
    all others keep their bytes, and no object changes.  Out of range the
    assignment throws before anything is written. *)
Theorem write_changes_one_byte s h b (i : N) v :
  wf w s -> objs s !! h = Some b ->
  ((sz b <= i)%N ->
     (let* r := index h i in write r v) s = Raise (out_of_range index_what) s)
  /\ ((i < sz b)%N ->
      exists s',
        (let* r := index h i in write r v) s = Ret tt s' /\ wf w s'
        /\ objs s' = objs s
        /\ contents s' b = <[N.to_nat i := v]> (contents s b)
        /\ contents s' b !! N.to_nat i = Some v
        /\ (forall h' b', objs s !! h' = Some b' ->
              contents s' b'
              = if decide (ptr b' = ptr b) then <[N.to_nat i := v]> (contents s b')
                else contents s b')).
Proof.
  intros Hwf Hb. split.
  - intros Hge. destruct (index_ge s h b i Hb Hge) as [Hidx _].
    unfold bind. by rewrite Hidx.
  - intros Hlt. destruct (index_lt s h b i Hb Hlt) as [Hidx _].
    destruct (wf_live w s h b Hwf Hb) as (l & blk & Hp & Hl & Hlen & _); [lia|].
    rewrite (bind_Ret _ _ _ _ _ Hidx).
    assert (Hwrite : write (Ref (ptr b) i) v s
                     = Ret tt {| heap := <[l := {| use_count := use_count blk;
                                                  bytes := <[N.to_nat i := v]> (bytes blk) |}]>
                                           (heap s);
                                 objs := objs s |}).
    { unfold write. simpl. rewrite Hp, Hl.
      by rewrite bool_decide_eq_true_2 by lia. }
    eexists. split; [exact Hwrite|]. split; [by apply wf_write|]. split; [done|].
    assert (Hall : forall b', live (heap s) (ptr b') ->
              contents {| heap := <[l := {| use_count := use_count blk;
                                            bytes := <[N.to_nat i := v]> (bytes blk) |}]>
                                     (heap s);
                          objs := objs s |} b'
              = if decide (ptr b' = ptr b) then <[N.to_nat i := v]> (contents s b')
                else contents s b').
    { intros b' Hlive. unfold contents. simpl. rewrite Hp.
      destruct (ptr b') as [l'|] eqn:Hp'.
      - destruct (decide (Some l' = Some l)) as [[= ->] | Hne].
        + rewrite lookup_insert_eq, Hl. simpl.
          destruct (decide (N.to_nat i < N.to_nat (sz b'))%nat).
          * by rewrite take_insert_lt.
          * rewrite take_insert_ge by lia.
            rewrite list_insert_ge; [done|]. rewrite length_take. lia.
        + rewrite lookup_insert_ne by congruence. done.
      - by destruct (decide (None = Some l)). }
    split_and!.
    + rewrite (Hall b) by (by apply (wf_live_ptr w s h b)). by rewrite decide_True.
    + rewrite (Hall b) by (by apply (wf_live_ptr w s h b)). rewrite decide_True by done.
      apply list_lookup_insert_eq. unfold contents. rewrite Hp, Hl, length_take. lia.
    + intros h' b' Hb'. apply Hall. by apply (wf_live_ptr w s h' b').
Qed.

(** X16. Moving a buffer into a new object, moving it back and destroying
    the emptied object leaves the store exactly as it was. *)
Theorem move_out_and_back s b1 b2 o :
  objs s !! b1 = Some o -> objs s !! b2 = None ->
  (move_ctor b2 b1 ;; move_assign b1 b2 ;; dtor b2) s = Ret tt s.
Proof.
  intros H1 H2. assert (Hne : b1 <> b2) by congruence.
  rewrite (bind_Ret _ _ _ _ _ (move_ctor_spec s b2 b1 o H2 H1)).
  erewrite bind_Ret.
  2:{ apply (move_assign_spec _ b1 b2 moved_from o); try done; simpl.
      all: try (by apply lookup_insert_eq).
      all: try (by rewrite lookup_insert_ne by done; apply lookup_insert_eq). }
  simpl. erewrite dtor_spec.
  2:{ simpl. apply lookup_insert_eq. }
  2:{ intros l. discriminate. }
  simpl. destruct s as [hp m]. simpl in *. do 2 f_equal.
  apply map_eq. intros k.
  destruct (decide (k = b2)) as [-> | Hk2].
  - by rewrite lookup_delete_eq.
  - rewrite lookup_delete_ne by done. rewrite lookup_insert_ne by done.
    destruct (decide (k = b1)) as [-> | Hk1].
    + by rewrite lookup_insert_eq.
    + by rewrite !lookup_insert_ne.
Qed.

(** X17. Copying a buffer and destroying the copy leaves the store exactly
    as it was: the use count is back where it started. *)
Theorem copy_then_destroy_restores s b1 b2 o :
  wf w s -> objs s !! b1 = Some o -> objs s !! b2 = None ->
  (copy_ctor b2 b1 ;; dtor b2) s = Ret tt s.
Proof.
  intros Hwf H1 H2.
  assert (Hpos : forall l blk, ptr o = Some l -> heap s !! l = Some blk ->
                               (0 < use_count blk)%N).
  { intros l blk Hp Hl. destruct (wf_ptr w s b1 o l Hwf H1 Hp) as (blk' & Hl' & Hpos).
    congruence. }
  erewrite bind_Ret.
  2:{ apply (copy_ctor_spec s b2 b1 o); try done. by apply (wf_live_ptr w s b1 o). }
  erewrite dtor_spec.
  2:{ simpl. apply lookup_insert_eq. }
  2:{ simpl. apply live_up. by apply (wf_live_ptr w s b1 o). }
  simpl. rewrite down_up by done. rewrite delete_insert_id by done. by destruct s.
Qed.
End frames.

(** ** The stores a program can get to, object by object *)

Section reachable_stores.
Import shared_buf.
Variable w : N.

(** An array with owners has an object holding it. *)
Lemma owners_holder (m : gmap handle t) l :
  (0 < owners m l)%nat -> exists h b, m !! h = Some b /\ ptr b = Some l.
Proof.
  unfold owners. intros Hpos.
  destruct (map_choose (filter (fun kv : handle * t => ptr kv.2 = Some l) m))
    as (h & b & Hhb).
  { intros Hempty. rewrite Hempty, map_size_empty in Hpos. lia. }
  apply map_lookup_filter_Some in Hhb as [Hm Hp]. by exists h, b.
Qed.

(** X18. In a store built by the constructors, assignments, destructors
    and writes of the class, every buffer fits [size_t] and either holds
    nothing and has size 0, or holds a live array whose length is its size
    (or has size 0); and the use count of every array is the number of
    buffers that hold it. *)
Theorem built_store_is_consistent s :
  built w s ->
  (forall h b, objs s !! h = Some b ->
     is_size_t w (sz b)
     /\ (ptr b = None -> sz b = 0%N)
     /\ (forall l, ptr b = Some l ->
           exists blk, heap s !! l = Some blk
                       /\ (sz b = 0%N \/ sz b = N.of_nat (length (bytes blk))))
     /\ length (contents s b) = N.to_nat (sz b))
  /\ (forall l blk, heap s !! l = Some blk ->
        use_count blk = N.of_nat (owners (objs s) l) /\ (0 < use_count blk)%N).
Proof.
  intros Hbuilt. pose proof (built_wf w s Hbuilt) as Hwf. split.
  - intros h b Hb. destruct (wf_sized w s h b Hwf Hb) as (Hsz & Hnull & Hlen).
    split_and!; try done.
    + intros l Hp. destruct (wf_ptr w s h b l Hwf Hb Hp) as (blk & Hl & _).
      exists blk. split; [done|]. by apply (Hlen l).
    + unfold contents. destruct (ptr b) as [l|] eqn:Hp.
      * destruct (wf_ptr w s h b l Hwf Hb Hp) as (blk & Hl & _). rewrite Hl.
        rewrite length_take. destruct (Hlen l blk eq_refl Hl); lia.
      * rewrite Hnull by done. done.
  - intros l blk Hl. pose proof (wf_counted w s Hwf l) as Hc.
    unfold counted in Hc. rewrite Hl in Hc. destruct Hc as [Hc Hpos].
    split; [done|lia].
Qed.

(** X19. Such a store leaks nothing and dangles nowhere: every array is
    held by some buffer, every buffer's array is allocated, and once every
    buffer is destroyed no array is left. *)
Theorem built_store_has_no_leak s :
  built w s ->
  (forall l, is_Some (heap s !! l)
             <-> exists h b, objs s !! h = Some b /\ ptr b = Some l)
  /\ (objs s = ∅ -> heap s = ∅).
Proof.
  intros Hbuilt. pose proof (built_wf w s Hbuilt) as Hwf.
  assert (Hheld : forall l, is_Some (heap s !! l)
                            -> exists h b, objs s !! h = Some b /\ ptr b = Some l).
  { intros l [blk Hl]. pose proof (wf_counted w s Hwf l) as Hc.
    unfold counted in Hc. rewrite Hl in Hc. destruct Hc as [_ Hpos].
    by apply owners_holder. }
  split.
  - intros l. split; [apply Hheld|].
    intros (h & b & Hb & Hp). destruct (wf_ptr w s h b l Hwf Hb Hp) as (blk & Hl & _).
    by exists blk.
  - intros Hempty. apply map_empty. intros l.
    destruct (heap s !! l) as [blk|] eqn:Hl; [|done].
    destruct (Hheld l) as (h & b & Hb & _); [by exists blk|].
    rewrite Hempty in Hb. by rewrite lookup_empty in Hb.
Qed.
End reachable_stores.

(** ** The cursor of the earliest revision, used as [begin()] and [end()] give it *)

Section early_walk.
Variable w : N.

(** X20. In [src/unnamed/part_001] a cursor obtained from [begin()] or
    [end()] and moved by [++] only stays between 0 and [size], although the
    constructor does not clamp: [k] increments from [begin()] stand at
    [min k size], so after [size] of them the cursor equals [end()].
    Dereferencing any cursor, clamped or not, either throws or yields an
    offset below [size]. *)
Theorem early_walk_stays_in_bounds (p : option loc) (size : N) :
  is_size_t w size ->
  (forall it, part_001.walked w p size it ->
     part_001.base_ptr it = p /\ part_001.size it = size
     /\ (part_001.i it <= size)%N)
  /\ (forall k : nat,
        Nat.iter k (part_001.pre_inc w) (part_001.begin_ p size)
        = part_001.Mk p size (N.min (N.of_nat k) size))
  /\ part_001.eq (Nat.iter (N.to_nat size) (part_001.pre_inc w) (part_001.begin_ p size))
                 (part_001.end_ p size) = true
  /\ (forall it,
        (exists r, part_001.deref it = Ok r
                   /\ ref_base r = part_001.base_ptr it
                   /\ ref_off r = part_001.i it
                   /\ (ref_off r < part_001.size it)%N)
        \/ ((part_001.size it <= part_001.i it)%N
            /\ exists msg, part_001.deref it = Throw (out_of_range msg)))
  /\ (forall a b, part_001.ne a b = negb (part_001.eq a b)).
Proof.
  intros Hsz.
  assert (Hstep : forall it,
            part_001.base_ptr it = p /\ part_001.size it = size /\ (part_001.i it <= size)%N ->
            part_001.base_ptr (part_001.pre_inc w it) = p
            /\ part_001.size (part_001.pre_inc w it) = size
            /\ (part_001.i (part_001.pre_inc w it) <= size)%N).
  { intros it (Hb & Hs & Hi). unfold part_001.pre_inc.
    destruct (N.ltb_spec (part_001.i it) (part_001.size it)); simpl; [|done].
    split_and!; try done.
    rewrite wrap_small by (unfold is_size_t in *; lia). lia. }
  assert (Hiter : forall k : nat,
            Nat.iter k (part_001.pre_inc w) (part_001.begin_ p size)
            = part_001.Mk p size (N.min (N.of_nat k) size)).
  { induction k as [|k IH].
    - simpl. unfold part_001.begin_, part_001.ctor. f_equal. lia.
    - rewrite Nat.iter_succ, IH. unfold part_001.pre_inc. simpl.
      destruct (N.ltb_spec (N.min (N.of_nat k) size) size).
      + rewrite wrap_small by (unfold is_size_t in *; lia). f_equal. lia.
      + f_equal. lia. }
  split_and!.
  - induction 1 as [| |it _ IH|it _ IH|it _ IH]; simpl.
    + split_and!; try done. lia.
    + split_and!; try done.
    + by apply Hstep.
    + done.
    + by apply Hstep.
  - done.
  - rewrite Hiter. unfold part_001.eq, part_001.end_, part_001.ctor. simpl.
    rewrite bool_decide_eq_true_2 by done. rewrite N.eqb_refl. simpl.
    apply N.eqb_eq. lia.
  - intros it. unfold part_001.deref.
    destruct (N.ltb_spec (part_001.i it) (part_001.size it)).
    + left. eexists. split; [done|]. by simpl.
    + right. split; [done|]. by eexists.
  - intros a b. unfold part_001.ne, part_001.eq.
    destruct (decide (part_001.base_ptr a = part_001.base_ptr b)) as [Hp | Hp].
    + rewrite bool_decide_eq_false_2 by (intros Hn; by apply Hn).
      rewrite bool_decide_eq_true_2 by done. simpl.
      by destruct (_ =? _)%N, (_ =? _)%N.
    + rewrite bool_decide_eq_true_2 by done. by rewrite bool_decide_eq_false_2 by done.
Qed.
End early_walk.

(** ** Filling a buffer by a range-for *)

Section fill_facts.
Import shared_buf.
Variable w : N.

(** The loop of a range-for that writes: from position [i] on it stores
    one value after the other, and touches nothing before [i]. *)
Lemma range_loop_fills V A (g : A -> Byte.byte) (f : A -> A) (l : loc) (n : N) :
  is_size_t w n ->
  forall (k fuel : nat) (i : N) (acc : A) s blk,
    wf w s -> heap s !! l = Some blk -> length (bytes blk) = N.to_nat n ->
    N.to_nat n = (N.to_nat i + k)%nat -> (k <= fuel)%nat ->
    exists s' blk',
      range_loop w fuel (@iterator_.Mk V (Some l) n i) (iterator_.Mk (Some l) n n)
                 (fill_with g f) acc s
      = Ret (Nat.iter k f acc) s'
      /\ wf w s' /\ objs s' = objs s
      /\ heap s' = <[l := blk']> (heap s)
      /\ use_count blk' = use_count blk
      /\ bytes blk' = take (N.to_nat i) (bytes blk)
                      ++ map (fun j => g (Nat.iter j f acc)) (seq 0 k).
Proof.
  intros Hn. induction k as [|k IH]; intros fuel i acc s blk Hwf Hl Hlen Hk Hfuel.
  - assert (i = n) as -> by lia.
    assert (Hne : iterator_.ne (@iterator_.Mk V (Some l) n n) (iterator_.Mk (Some l) n n)
                  = false).
    { unfold iterator_.ne. simpl. rewrite N.eqb_refl.
      by rewrite bool_decide_eq_false_2 by (intros Hne; by apply Hne). }
    exists s, blk. split_and!; try done.
    + destruct fuel; simpl; by rewrite Hne.
    + by rewrite insert_id.
    + simpl. rewrite app_nil_r. by rewrite take_ge by lia.
  - destruct fuel as [|fuel]; [lia|]. cbn [range_loop].
    assert (Hne : iterator_.ne (@iterator_.Mk V (Some l) n i) (iterator_.Mk (Some l) n n)
                  = true).
    { unfold iterator_.ne. simpl. destruct (N.eqb_spec i n); [lia|].
      simpl. apply orb_true_r. }
    rewrite Hne. unfold iterator_.deref, iterator_.pre_inc. simpl.
    destruct (N.ltb_spec i n); [|lia]. simpl.
    set (blk1 := {| use_count := use_count blk;
                    bytes := <[N.to_nat i := g acc]> (bytes blk) |}).
    set (s1 := {| heap := <[l := blk1]> (heap s); objs := objs s |}).
    assert (Hbody : fill_with g f (Ref (Some l) i) acc s = Ret (f acc) s1).
    { unfold fill_with, bind, write. simpl. rewrite Hl.
      by rewrite bool_decide_eq_true_2 by lia. }
    unfold bind at 1. unfold ret at 1. rewrite (bind_Ret _ _ _ _ _ Hbody).
    unfold iterator_.set_i. simpl.
    rewrite wrap_small by (unfold is_size_t in *; lia).
    destruct (IH fuel (i + 1)%N (f acc) s1 blk1) as (s' & blk' & Hrun & Hwf' & Hobjs & Hheap
                                                     & Hcount & Hbytes).
    { by apply wf_write. }
    { simpl. apply lookup_insert_eq. }
    { simpl. by rewrite length_insert. }
    { lia. }
    { lia. }
    exists s', blk'. split_and!; try done.
    + rewrite Hrun. by rewrite Nat.iter_swap.
    + rewrite Hheap. simpl. by rewrite insert_insert_eq.
    + rewrite Hbytes. simpl.
      replace (N.to_nat (i + 1)) with (S (N.to_nat i)) by lia.
      assert (Hat : <[N.to_nat i := g acc]> (bytes blk) !! N.to_nat i = Some (g acc)).
      { apply list_lookup_insert_eq. lia. }
      rewrite (take_S_r _ _ _ Hat). rewrite take_insert_ge by lia.
      rewrite <- app_assoc. simpl. do 2 f_equal.
      rewrite <- seq_shift, map_map. apply map_ext. intros j.
      by rewrite Nat.iter_swap.
Qed.

(** X21. A range-for that assigns to each element of a buffer that holds
    an array (one not moved from) fills the buffer first to last with the
    values computed in turn, once each; no object changes, and buffers on
    other arrays keep their bytes. *)
Theorem range_for_fills V A (g : A -> Byte.byte) (f : A -> A) (acc : A) s h b :
  wf w s -> objs s !! h = Some b -> ptr b <> None ->
  exists s',
    @range_for w V A h (fill_with g f) acc s = Ret (Nat.iter (N.to_nat (sz b)) f acc) s'
    /\ wf w s' /\ objs s' = objs s
    /\ contents s' b = map (fun j => g (Nat.iter j f acc)) (seq 0 (N.to_nat (sz b)))
    /\ (forall h' b', objs s !! h' = Some b' -> ptr b' <> ptr b ->
          contents s' b' = contents s b').
Proof.
  intros Hwf Hb Hptr. destruct (N.eq_dec (sz b) 0%N) as [Hz | Hnz].
  - exists s. rewrite (range_for_empty w V _ s h b) by done. rewrite Hz. simpl.
    split_and!; try done.
    unfold contents. rewrite Hz. destruct (ptr b); [|done]. by destruct (heap s !! _).
  - destruct (wf_live w s h b Hwf Hb) as (l & blk & Hp & Hl & Hlen & _); [lia|].
    destruct (wf_sized w s h b Hwf Hb) as (Hsz & _).
    destruct (range_loop_fills V A g f l (sz b) Hsz (N.to_nat (sz b)) (N.to_nat (sz b))
                0%N acc s blk) as (s' & blk' & Hrun & Hwf' & Hobjs & Hheap & Hcount & Hbytes);
      try done; try lia.
    exists s'. split_and!; try done.
    + unfold range_for.
      destruct (begin_end V s h b Hb Hptr) as [Hbegin Hend].
      rewrite (bind_Ret _ _ _ _ _ Hbegin), (bind_Ret _ _ _ _ _ Hend).
      destruct (ctor_position V (ptr b) (sz b) (sz b)) as (_ & -> & _).
      assert (@iterator_.ctor V (ptr b) (sz b) 0 = iterator_.Mk (Some l) (sz b) 0) as ->.
      { unfold iterator_.ctor. simpl. rewrite Hp.
        by destruct (N.ltb_spec (sz b) 0); [lia|]. }
      assert (@iterator_.ctor V (ptr b) (sz b) (sz b) = iterator_.Mk (Some l) (sz b) (sz b))
        as ->.
      { unfold iterator_.ctor. simpl. by rewrite Hp, N.ltb_irrefl. }
      exact Hrun.
    + unfold contents. rewrite Hp, Hheap, lookup_insert_eq, Hbytes. simpl.
      apply take_ge. rewrite length_map, length_seq. lia.
    + intros h' b' Hb' Hother. unfold contents.
      destruct (ptr b') as [l'|] eqn:Hp'; [|done].
      rewrite Hheap, lookup_insert_ne; [done|]. congruence.
Qed.
End fill_facts.

(** ** Reading the printed text back *)

Section printed_text.
Import shared_buf.
Variable w : N.

(** A byte is written with one or two digits, and [h] is no digit. *)
Lemma hex_of_byte_shape v :
  (exists d, hex_of_byte v = [d] /\ d <> "h"%char)
  \/ (exists d1 d2, hex_of_byte v = [d1; d2] /\ d1 <> "h"%char /\ d2 <> "h"%char).
Proof.
  destruct v;
    first [ left; eexists; split; [vm_compute; reflexivity | discriminate]
          | right; do 2 eexists; split; [vm_compute; reflexivity | split; discriminate] ].
Qed.

Lemma hex_of_byte_value v : hex_value (hex_of_byte v) = Some (Byte.to_N v).
Proof. destruct v; vm_compute; reflexivity. Qed.

Lemma hex_of_byte_inj v1 v2 : hex_of_byte v1 = hex_of_byte v2 -> v1 = v2.
Proof.
  intros Heq.
  assert (Hn : Byte.to_N v1 = Byte.to_N v2).
  { pose proof (hex_of_byte_value v1) as H1. rewrite Heq, hex_of_byte_value in H1.
    congruence. }
  pose proof (Byte.of_to_N v1) as H1. rewrite Hn, Byte.of_to_N in H1. congruence.
Qed.

(** The first element of a text and what follows it are determined by the
    text. *)
Lemma item_prefix v1 v2 r1 r2 : item v1 ++ r1 = item v2 ++ r2 -> v1 = v2 /\ r1 = r2.
Proof.
  unfold item. rewrite <- !app_assoc. intros Heq.
  destruct (hex_of_byte_shape v1) as [(d & H1 & Hd) | (d & d' & H1 & Hd & Hd')],
           (hex_of_byte_shape v2) as [(e & H2 & He) | (e & e' & H2 & He & He')];
    rewrite H1, H2 in Heq; simpl in Heq; try congruence.
  all: split; [apply hex_of_byte_inj|]; congruence.
Qed.

Lemma commas_inj (l1 l2 : list Byte.byte) :
  concat (map (fun y => ","%char :: y) (map item l1))
  = concat (map (fun y => ","%char :: y) (map item l2)) -> l1 = l2.
Proof.
  revert l2. induction l1 as [|v1 l1 IH]; intros [|v2 l2]; simpl; try done.
  intros [= Heq]. apply item_prefix in Heq as [-> Heq]. f_equal. by apply IH.
Qed.

Lemma dump_inj (l1 l2 : list Byte.byte) : dump l1 = dump l2 -> l1 = l2.
Proof.
  unfold dump. intros [= Heq]. apply app_inv_tail in Heq.
  destruct l1 as [|v1 l1], l2 as [|v2 l2]; simpl in Heq; try done.
  - destruct (hex_of_byte_shape v2) as [(e & H2 & _) | (e & e' & H2 & _)];
      unfold item in Heq; rewrite H2 in Heq; discriminate.
  - destruct (hex_of_byte_shape v1) as [(e & H1 & _) | (e & e' & H1 & _)];
      unfold item in Heq; rewrite H1 in Heq; discriminate.
  - apply item_prefix in Heq as [-> Heq]. f_equal. by apply commas_inj.
Qed.

(** X22. What [operator<<] writes for a buffer determines its bytes: on
    the same sink, two buffers (of one store or of two) give the same text
    exactly when they hold the same bytes. *)
Theorem printed_text_determines_bytes s1 s2 h1 h2 b1 b2 os :
  wf w s1 -> wf w s2 -> objs s1 !! h1 = Some b1 -> objs s2 !! h2 = Some b2 ->
  exists os1 os2,
    shl w os h1 s1 = Ret os1 s1 /\ shl w os h2 s2 = Ret os2 s2
    /\ (ostream.out os1 = ostream.out os2 <-> contents s1 b1 = contents s2 b2).
Proof.
  intros Hwf1 Hwf2 Hb1 Hb2. unfold shl.
  do 2 eexists. split; [by apply print_spec|]. split; [by apply print_spec|].
  simpl. split.
  - intros Heq. apply app_inv_head in Heq. apply app_inv_head in Heq.
    by apply dump_inj.
  - by intros ->.
Qed.
End printed_text.

(** ** The test program, whatever the new array holds *)

Section test_program.
Import shared_buf.

(** A list of ten bytes, byte by byte. *)
Lemma ten_bytes (l : list Byte.byte) :
  length l = 10%nat ->
  exists v0 v1 v2 v3 v4 v5 v6 v7 v8 v9, l = [v0; v1; v2; v3; v4; v5; v6; v7; v8; v9].
Proof.
  intros Hlen. do 10 (destruct l as [|? l]; [discriminate|]).
  destruct l; [|discriminate]. by do 10 eexists.
Qed.

(** X23. The test program prints the same four lines whatever bytes the
    array of [buf] held when it was allocated: the loop overwrites all ten
    before anything is printed.  The copy and the original show the 0
    written through the copy, the moved-from copy prints empty, and
    [std::cout] ends with the formatting state it started with. *)
Theorem main_output_ignores_junk (junk : list Byte.byte) :
  exists cout s,
    test_shared_buf.main 64 junk ostream.fresh_sink empty = Ret cout s
    /\ test_shared_buf.lines cout
       = [ "[1h,2h,3h,4h,5h,6h,7h,8h,9h,ah]";
           "buf=[1h,2h,0h,4h,5h,6h,7h,8h,9h,ah]";
           "buf=[]";
           "buf=[1h,2h,0h,4h,5h,6h,7h,8h,9h,ah]" ]%string
    /\ ostream.fmt cout = ostream.fmt ostream.fresh_sink
    /\ wf 64 s.
Proof.
  unfold test_shared_buf.main.
  rewrite (bind_Ret _ _ _ _ _ (ctor_spec empty 0 10 junk eq_refl)).
  destruct (ten_bytes (resize (N.to_nat 10) Byte.x00 junk))
    as (v0 & v1 & v2 & v3 & v4 & v5 & v6 & v7 & v8 & v9 & ->).
  { by rewrite length_resize. }
  do 2 eexists. split; [vm_compute; reflexivity|].
  split; [vm_compute; reflexivity|]. split; [vm_compute; reflexivity|].
  apply (bool_decide_unpack _). vm_compute. reflexivity.
Qed.
End test_program.

(** ** The theorems at work, for a 64-bit [size_t] *)

Section instances.
Import shared_buf.

Lemma wf_one_buffer : wf 64 one_buffer.
Proof. apply (bool_decide_unpack _). vm_compute. reflexivity. Defined.

Lemma wf_two_buffers : wf 64 two_buffers.
Proof. apply (bool_decide_unpack _). vm_compute. reflexivity. Defined.

(** The stores above are what the constructor builds. *)
Lemma stores_are_built :
  ctor 0 3 [Byte.x01; Byte.x02; Byte.x03] empty = Ret tt one_buffer
  /\ ctor 1 1 [Byte.xff] one_buffer = Ret tt two_buffers.
Proof. split; vm_compute; reflexivity. Qed.

Lemma copy_shares_storage_witness :
  wf 64 two_buffers
  /\ (exists s1 s2,
        copy_ctor 2 0 two_buffers = Ret tt s1
        /\ write_read 2 0 1 Byte.xaa s1 = Ret (Byte.xaa, Byte.xaa) s2)
  /\ (exists s1 s2,
        copy_assign 1 0 two_buffers = Ret tt s1
        /\ write_read 1 0 1 Byte.xaa s1 = Ret (Byte.xaa, Byte.xaa) s2).
Proof.
  split; [exact wf_two_buffers|].
  destruct (copy_shares_storage 64 two_buffers 0 2 {| ptr := Some 1%positive; sz := 3 |}
              1 Byte.xaa wf_two_buffers) as [Hctor _];
    [vm_compute; reflexivity | reflexivity |].
  destruct (copy_shares_storage 64 two_buffers 0 1 {| ptr := Some 1%positive; sz := 3 |}
              1 Byte.xaa wf_two_buffers) as [_ Hassign];
    [vm_compute; reflexivity | reflexivity |].
  split.
  - destruct Hctor as (s1 & Hs1 & _ & _ & _ & (s2 & Hs2) & _);
      [vm_compute; reflexivity|]. by exists s1, s2.
  - destruct Hassign as (s1 & Hs1 & _ & _ & _ & (s2 & Hs2) & _).
    + eexists. vm_compute. reflexivity.
    + by exists s1, s2.
Defined.


Lemma bulk_advance_clamps_witness :
  is_size_t 64 10 /\ is_size_t 64 4 /\ is_size_t 64 (2 ^ 64 - 2)
  /\ iterator_.i (iterator_.add_assign 64 (@iterator_.Mk uint8_t (Some 1%positive) 10 4) 3) = 7%N
  /\ iterator_.i (iterator_.add_assign 64 (@iterator_.Mk uint8_t (Some 1%positive) 10 4) 7) = 10%N
  /\ iterator_.i (iterator_.add_assign 64 (@iterator_.Mk uint8_t (Some 1%positive) 10 4)
                    (2 ^ 64 - 2)) = 10%N.
Proof.
  pose (it := @iterator_.Mk uint8_t (Some 1%positive) 10 4).
  assert (H10 : is_size_t 64 10) by reflexivity.
  assert (H4 : is_size_t 64 4) by reflexivity.
  assert (Hbig : is_size_t 64 (2 ^ 64 - 2)) by reflexivity.
  assert (H3 : is_size_t 64 3) by reflexivity.
  assert (H7 : is_size_t 64 7) by reflexivity.
  destruct (bulk_advance_clamps 64 uint8_t it 3 H10 H4 H3) as (Hfit & _).
  destruct (bulk_advance_clamps 64 uint8_t it 7 H10 H4 H7) as (_ & Hbeyond & _).
  destruct (bulk_advance_clamps 64 uint8_t it (2 ^ 64 - 2) H10 H4 Hbig) as (_ & Hwrap & _).
  split_and!; [exact H10|exact H4|exact Hbig| | |].
  - apply Hfit. split; vm_compute; [reflexivity|discriminate].
  - apply Hbeyond. intros [_ Hle]. vm_compute in Hle. by apply Hle.
  - apply Hwrap. intros [Hlt _]. vm_compute in Hlt. discriminate.
Defined.

Lemma advance_saturates_witness :
  is_size_t 64 3
  /\ iterator_.i (Nat.iter 2 (iterator_.pre_inc 64) (@iterator_.ctor uint8_t (Some 1%positive) 3 0))
     = 2%N
  /\ Nat.iter 5 (iterator_.pre_inc 64) (@iterator_.ctor uint8_t (Some 1%positive) 3 0)
     = @iterator_.ctor uint8_t (Some 1%positive) 3 3.
Proof.
  pose (it := @iterator_.Mk uint8_t (Some 1%positive) 3 1).
  assert (H3 : is_size_t 64 3) by reflexivity.
  assert (Hle : (iterator_.i it <= iterator_.sz it)%N) by (vm_compute; discriminate).
  destruct (advance_saturates 64 uint8_t it 0 2 H3 Hle) as (_ & _ & _ & _ & _ & Hpos & _).
  destruct (advance_saturates 64 uint8_t it 0 5 H3 Hle) as (_ & _ & _ & _ & _ & _ & Hend).
  split_and!; [exact H3|exact Hpos|].
  apply Hend. vm_compute. discriminate.
Defined.

Lemma distance_saturates_witness :
  is_size_t 64 7 /\ is_size_t 64 2
  /\ iterator_.sub 64 (@iterator_.Mk uint8_t None 10 7) (@iterator_.Mk uint8_t None 10 2) = 5%N
  /\ iterator_.sub 64 (@iterator_.Mk uint8_t None 10 2) (@iterator_.Mk uint8_t None 10 7) = 0%N.
Proof.
  assert (H7 : is_size_t 64 7) by reflexivity.
  assert (H2 : is_size_t 64 2) by reflexivity.
  destruct (distance_saturates 64 uint8_t (iterator_.Mk None 10 7) (iterator_.Mk None 10 2)
              H7 H2) as (Hahead & _).
  destruct (distance_saturates 64 uint8_t (iterator_.Mk None 10 2) (iterator_.Mk None 10 7)
              H2 H7) as (_ & Hbehind & _).
  split_and!; [exact H7|exact H2| |].
  - apply Hahead. vm_compute. discriminate.
  - apply Hbehind. reflexivity.
Defined.

Lemma print_writes_dump_witness :
  wf 64 one_buffer
  /\ exists os',
       print 64 0 ostream.loud_sink one_buffer = Ret os' one_buffer
       /\ ostream.out os'
          = ostream.out ostream.loud_sink
            ++ replicate (Z.to_nat (ostream.width ostream.loud_sink - 1))
                 (ostream.fill ostream.loud_sink)
            ++ dump (contents one_buffer {| ptr := Some 1%positive; sz := 3 |}).
Proof.
  split; [exact wf_one_buffer|].
  destruct (print_writes_dump 64 one_buffer 0 {| ptr := Some 1%positive; sz := 3 |}
              ostream.loud_sink wf_one_buffer) as [(os' & Hprint & Hout & _) _].
  - vm_compute. reflexivity.
  - by exists os'.
Defined.

Lemma print_restores_flags_witness :
  wf 64 one_buffer
  /\ exists os',
       print 64 0 ostream.wide_sink one_buffer = Ret os' one_buffer
       /\ ostream.flags os' = ostream.flags ostream.wide_sink
       /\ ostream.width os' = 0%Z.
Proof.
  split; [exact wf_one_buffer|].
  destruct (print_restores_flags 64 one_buffer 0 {| ptr := Some 1%positive; sz := 3 |}
              ostream.wide_sink wf_one_buffer)
    as (os' & Hprint & Hflags & _ & _ & Hwidth & _).
  - vm_compute. reflexivity.
  - by exists os'.
Defined.

Lemma self_move_keeps_storage_witness :
  wf 64 one_buffer
  /\ exists s',
       move_assign 0 0 one_buffer = Ret tt s'
       /\ heap s' = heap one_buffer
       /\ wf 64 s'.
Proof.
  split; [exact wf_one_buffer|].
  destruct (self_move_keeps_storage 64 one_buffer 0 {| ptr := Some 1%positive; sz := 3 |}
              wf_one_buffer)
    as (s' & Hmove & _ & Hheap & _ & Hwf & _).
  - vm_compute. reflexivity.
  - by exists s'.
Defined.

Lemma early_ctor_keeps_position_witness :
  (3 < 5)%N
  /\ part_001.i (part_001.ctor None 3 5) = 5%N
  /\ iterator_.i (@iterator_.ctor uint8_t None 3 5) = 3%N.
Proof.
  split; [reflexivity|].
  destruct (early_ctor_keeps_position 64 None 3 5) as (Hi & _ & _ & _ & Hnow);
    [reflexivity|].
  by split.
Defined.
End instances.

(** ** The further theorems at work *)

Section more_instances.
Import shared_buf.

Lemma built_one_buffer : built 64 one_buffer.
Proof.
  apply (built_ctor 64 empty one_buffer 0 3 [Byte.x01; Byte.x02; Byte.x03] (built_empty 64)).
  - reflexivity.
  - vm_compute. reflexivity.
Defined.

Lemma reachable_cursor_is_safe_witness :
  wf 64 one_buffer
  /\ objs one_buffer !! 0%nat = Some {| ptr := Some 1%positive; sz := 3 |}
  /\ cursor_of 64 one_buffer 0 uint8_t
       (iterator_.pre_inc 64 (@iterator_.ctor uint8_t (Some 1%positive) 3 0))
  /\ exists r v,
       iterator_.deref (iterator_.pre_inc 64 (@iterator_.ctor uint8_t (Some 1%positive) 3 0))
       = Ok r
       /\ read r one_buffer = Ret v one_buffer.
Proof.
  assert (Hb : objs one_buffer !! 0%nat = Some {| ptr := Some 1%positive; sz := 3 |})
    by (vm_compute; reflexivity).
  assert (Hc : cursor_of 64 one_buffer 0 uint8_t
                 (iterator_.pre_inc 64 (@iterator_.ctor uint8_t (Some 1%positive) 3 0))).
  { apply c_pre_inc, c_begin. vm_compute. reflexivity. }
  destruct (reachable_cursor_is_safe 64 uint8_t one_buffer 0 _ _ wf_one_buffer Hb Hc)
    as (_ & Hiff & Hsafe & _).
  split_and!; [exact wf_one_buffer|exact Hb|exact Hc|].
  destruct (proj1 Hiff) as [r Hderef]; [vm_compute; reflexivity|].
  destruct (Hsafe r Hderef) as (_ & _ & _ & v & Hread & _).
  exists r, v. split; [exact Hderef|exact Hread].
Defined.

Lemma bulk_advance_is_repeated_step_witness :
  is_size_t 64 10 /\ (4 <= 10)%N /\ is_size_t 64 3
  /\ iterator_.add_assign 64 (@iterator_.Mk uint8_t (Some 1%positive) 10 4) 3
     = Nat.iter 3 (iterator_.pre_inc 64) (@iterator_.Mk uint8_t (Some 1%positive) 10 4).
Proof.
  assert (H10 : is_size_t 64 10) by reflexivity.
  assert (Hle : (4 <= 10)%N) by lia.
  assert (H3 : is_size_t 64 3) by reflexivity.
  split_and!; [exact H10|exact Hle|exact H3|].
  exact (bulk_advance_is_repeated_step 64 uint8_t
           (@iterator_.Mk uint8_t (Some 1%positive) 10 4) 3 H10 Hle H3).
Defined.

Lemma bulk_advances_add_up_witness :
  is_size_t 64 10 /\ (4 <= 10)%N /\ is_size_t 64 (2 + 9)
  /\ iterator_.add_assign 64
       (iterator_.add_assign 64 (@iterator_.Mk uint8_t (Some 1%positive) 10 4) 2) 9
     = iterator_.add_assign 64 (@iterator_.Mk uint8_t (Some 1%positive) 10 4) (2 + 9).
Proof.
  assert (H10 : is_size_t 64 10) by reflexivity.
  assert (Hle : (4 <= 10)%N) by lia.
  assert (H11 : is_size_t 64 (2 + 9)) by reflexivity.
  split_and!; [exact H10|exact Hle|exact H11|].
  exact (bulk_advances_add_up 64 uint8_t
           (@iterator_.Mk uint8_t (Some 1%positive) 10 4) 2 9 H10 Hle H11).
Defined.

Lemma distance_undoes_advance_witness :
  is_size_t 64 10 /\ (4 <= 10)%N /\ is_size_t 64 9
  /\ iterator_.sub 64
       (iterator_.add_assign 64 (@iterator_.Mk uint8_t (Some 1%positive) 10 4) 9)
       (@iterator_.Mk uint8_t (Some 1%positive) 10 4) = 6%N.
Proof.
  assert (H10 : is_size_t 64 10) by reflexivity.
  assert (Hle : (4 <= 10)%N) by lia.
  assert (H9 : is_size_t 64 9) by reflexivity.
  split_and!; [exact H10|exact Hle|exact H9|].
  destruct (distance_undoes_advance 64 uint8_t
              (@iterator_.Mk uint8_t (Some 1%positive) 10 4) 9 H10 Hle H9) as [Hdist _].
  exact Hdist.
Defined.

Lemma const_conversion_keeps_cursor_witness :
  (4 <= 10)%N /\ (10 <= 10)%N
  /\ iterator_.eq (iterator_.to_const (@iterator_.Mk uint8_t (Some 1%positive) 10 4))
                  (iterator_.to_const (@iterator_.Mk uint8_t (Some 1%positive) 10 10))
     = iterator_.eq (@iterator_.Mk uint8_t (Some 1%positive) 10 4)
                    (@iterator_.Mk uint8_t (Some 1%positive) 10 10).
Proof.
  assert (Ha : (4 <= 10)%N) by lia.
  assert (Hb : (10 <= 10)%N) by lia.
  split_and!; [exact Ha|exact Hb|].
  destruct (const_conversion_keeps_cursor uint8_t
              (@iterator_.Mk uint8_t (Some 1%positive) 10 4)
              (@iterator_.Mk uint8_t (Some 1%positive) 10 10) Ha Hb) as (_ & _ & Heq).
  exact Heq.
Defined.

Lemma cursor_agrees_with_index_witness :
  objs one_buffer !! 0%nat = Some {| ptr := Some 1%positive; sz := 3 |}
  /\ Some 1%positive <> None
  /\ is_size_t 64 3 /\ is_size_t 64 1
  /\ exists it,
       @begin_ uint8_t 0 one_buffer = Ret it one_buffer
       /\ lift (iterator_.deref (iterator_.add_assign 64 it 1)) one_buffer
          = index 0 1 one_buffer.
Proof.
  assert (Hb : objs one_buffer !! 0%nat = Some {| ptr := Some 1%positive; sz := 3 |})
    by (vm_compute; reflexivity).
  assert (Hp : Some 1%positive <> @None loc) by discriminate.
  assert (H3 : is_size_t 64 3) by reflexivity.
  assert (H1 : is_size_t 64 1) by reflexivity.
  split_and!; [exact Hb|exact Hp|exact H3|exact H1|].
  destruct (cursor_agrees_with_index 64 uint8_t one_buffer 0 _ 1 Hb Hp H3 H1)
    as (it & Hbegin & _ & Hin & _).
  exists it. split; [exact Hbegin|]. apply Hin. reflexivity.
Defined.

Lemma range_for_reads_contents_witness :
  wf 64 one_buffer
  /\ objs one_buffer !! 0%nat = Some {| ptr := Some 1%positive; sz := 3 |}
  /\ Some 1%positive <> None
  /\ @range_for 64 uint8_t (list Byte.byte) 0 read_into [] one_buffer
     = Ret (contents one_buffer {| ptr := Some 1%positive; sz := 3 |}) one_buffer.
Proof.
  assert (Hb : objs one_buffer !! 0%nat = Some {| ptr := Some 1%positive; sz := 3 |})
    by (vm_compute; reflexivity).
  assert (Hp : Some 1%positive <> @None loc) by discriminate.
  split_and!; [exact wf_one_buffer|exact Hb|exact Hp|].
  destruct (range_for_reads_contents 64 uint8_t one_buffer 0 _ wf_one_buffer Hb Hp)
    as (Hrun & _).
  exact Hrun.
Defined.

Lemma index_checks_bounds_witness :
  wf 64 one_buffer
  /\ objs one_buffer !! 0%nat = Some {| ptr := Some 1%positive; sz := 3 |}
  /\ index 0 5 one_buffer = Raise (out_of_range index_what) one_buffer
  /\ exists v r, index_const 0 1 one_buffer = Ret v one_buffer
                 /\ index 0 1 one_buffer = Ret r one_buffer.
Proof.
  assert (Hb : objs one_buffer !! 0%nat = Some {| ptr := Some 1%positive; sz := 3 |})
    by (vm_compute; reflexivity).
  split_and!; [exact wf_one_buffer|exact Hb| |].
  - destruct (index_checks_bounds 64 one_buffer 0 _ 5 wf_one_buffer Hb) as (Hout & _).
    apply Hout. simpl. lia.
  - destruct (index_checks_bounds 64 one_buffer 0 _ 1 wf_one_buffer Hb) as (_ & _ & Hin).
    destruct (proj1 Hin) as (v & r & _ & Hc & Hi & _); [reflexivity|].
    by exists v, r.
Defined.

Lemma dtor_frees_only_unshared_witness :
  wf 64 two_buffers
  /\ objs two_buffers !! 0%nat = Some {| ptr := Some 1%positive; sz := 3 |}
  /\ exists s', dtor 0 two_buffers = Ret tt s' /\ wf 64 s'
                /\ objs s' = delete 0%nat (objs two_buffers).
Proof.
  assert (Hb : objs two_buffers !! 0%nat = Some {| ptr := Some 1%positive; sz := 3 |})
    by (vm_compute; reflexivity).
  split_and!; [exact wf_two_buffers|exact Hb|].
  destruct (dtor_frees_only_unshared 64 two_buffers 0 _ wf_two_buffers Hb)
    as (s' & Hrun & Hwf & Hobjs & _).
  by exists s'.
Defined.

Lemma copy_assign_releases_old_witness :
  wf 64 two_buffers
  /\ objs two_buffers !! 1%nat = Some {| ptr := Some 2%positive; sz := 1 |}
  /\ objs two_buffers !! 0%nat = Some {| ptr := Some 1%positive; sz := 3 |}
  /\ exists s', copy_assign 1 0 two_buffers = Ret tt s' /\ wf 64 s'
                /\ contents s' {| ptr := Some 1%positive; sz := 3 |}
                   = contents two_buffers {| ptr := Some 1%positive; sz := 3 |}.
Proof.
  assert (Hb : objs two_buffers !! 1%nat = Some {| ptr := Some 2%positive; sz := 1 |})
    by (vm_compute; reflexivity).
  assert (Ho : objs two_buffers !! 0%nat = Some {| ptr := Some 1%positive; sz := 3 |})
    by (vm_compute; reflexivity).
  split_and!; [exact wf_two_buffers|exact Hb|exact Ho|].
  destruct (copy_assign_releases_old 64 two_buffers 1 0 _ _ wf_two_buffers Hb Ho)
    as (s' & Hrun & Hwf & _ & Hsame & _).
  by exists s'.
Defined.

Lemma move_assign_releases_old_witness :
  wf 64 two_buffers /\ 1%nat <> 0%nat
  /\ objs two_buffers !! 1%nat = Some {| ptr := Some 2%positive; sz := 1 |}
  /\ objs two_buffers !! 0%nat = Some {| ptr := Some 1%positive; sz := 3 |}
  /\ exists s', move_assign 1 0 two_buffers = Ret tt s' /\ wf 64 s'
                /\ contents s' {| ptr := Some 1%positive; sz := 3 |}
                   = contents two_buffers {| ptr := Some 1%positive; sz := 3 |}.
Proof.
  assert (Hne : 1%nat <> 0%nat) by discriminate.
  assert (Hb : objs two_buffers !! 1%nat = Some {| ptr := Some 2%positive; sz := 1 |})
    by (vm_compute; reflexivity).
  assert (Ho : objs two_buffers !! 0%nat = Some {| ptr := Some 1%positive; sz := 3 |})
    by (vm_compute; reflexivity).
  split_and!; [exact wf_two_buffers|exact Hne|exact Hb|exact Ho|].
  destruct (move_assign_releases_old 64 two_buffers 1 0 _ _ wf_two_buffers Hne Hb Ho)
    as (s' & Hrun & Hwf & _ & Hsame & _).
  by exists s'.
Defined.

Lemma copy_self_assign_is_noop_witness :
  wf 64 one_buffer
  /\ objs one_buffer !! 0%nat = Some {| ptr := Some 1%positive; sz := 3 |}
  /\ copy_assign 0 0 one_buffer = Ret tt one_buffer.
Proof.
  assert (Hb : objs one_buffer !! 0%nat = Some {| ptr := Some 1%positive; sz := 3 |})
    by (vm_compute; reflexivity).
  split_and!; [exact wf_one_buffer|exact Hb|].
  exact (copy_self_assign_is_noop 64 one_buffer 0 _ wf_one_buffer Hb).
Defined.

Lemma ctor_makes_fresh_storage_witness :
  wf 64 one_buffer /\ objs one_buffer !! 1%nat = None /\ is_size_t 64 2
  /\ exists s' l, ctor 1 2 [Byte.xff] one_buffer = Ret tt s' /\ wf 64 s'
                  /\ contents s' {| ptr := Some l; sz := 2 |} = [Byte.xff; Byte.x00].
Proof.
  assert (Hnew : objs one_buffer !! 1%nat = None) by (vm_compute; reflexivity).
  assert (H2 : is_size_t 64 2) by reflexivity.
  split_and!; [exact wf_one_buffer|exact Hnew|exact H2|].
  destruct (ctor_makes_fresh_storage 64 one_buffer 1 2 [Byte.xff] wf_one_buffer Hnew H2)
    as (s' & l & Hrun & Hwf & _ & _ & _ & _ & Hcontents & _).
  exists s', l. split_and!; [exact Hrun|exact Hwf|exact Hcontents].
Defined.

Lemma write_changes_one_byte_witness :
  wf 64 one_buffer
  /\ objs one_buffer !! 0%nat = Some {| ptr := Some 1%positive; sz := 3 |}
  /\ exists s',
       (let* r := index 0 1 in write r Byte.xaa) one_buffer = Ret tt s'
       /\ contents s' {| ptr := Some 1%positive; sz := 3 |}
          = <[1%nat := Byte.xaa]> (contents one_buffer {| ptr := Some 1%positive; sz := 3 |}).
Proof.
  assert (Hb : objs one_buffer !! 0%nat = Some {| ptr := Some 1%positive; sz := 3 |})
    by (vm_compute; reflexivity).
  split_and!; [exact wf_one_buffer|exact Hb|].
  destruct (write_changes_one_byte 64 one_buffer 0 _ 1 Byte.xaa wf_one_buffer Hb)
    as [_ Hin].
  destruct Hin as (s' & Hrun & _ & _ & Hcontents & _); [reflexivity|].
  exists s'. split; [exact Hrun|exact Hcontents].
Defined.

Lemma move_out_and_back_witness :
  objs two_buffers !! 0%nat = Some {| ptr := Some 1%positive; sz := 3 |}
  /\ objs two_buffers !! 2%nat = None
  /\ (move_ctor 2 0 ;; move_assign 0 2 ;; dtor 2) two_buffers = Ret tt two_buffers.
Proof.
  assert (Hb : objs two_buffers !! 0%nat = Some {| ptr := Some 1%positive; sz := 3 |})
    by (vm_compute; reflexivity).
  assert (Hnew : objs two_buffers !! 2%nat = None) by (vm_compute; reflexivity).
  split_and!; [exact Hb|exact Hnew|].
  exact (move_out_and_back two_buffers 0 2 _ Hb Hnew).
Defined.

Lemma copy_then_destroy_restores_witness :
  wf 64 two_buffers
  /\ objs two_buffers !! 0%nat = Some {| ptr := Some 1%positive; sz := 3 |}
  /\ objs two_buffers !! 2%nat = None
  /\ (copy_ctor 2 0 ;; dtor 2) two_buffers = Ret tt two_buffers.
Proof.
  assert (Hb : objs two_buffers !! 0%nat = Some {| ptr := Some 1%positive; sz := 3 |})
    by (vm_compute; reflexivity).
  assert (Hnew : objs two_buffers !! 2%nat = None) by (vm_compute; reflexivity).
  split_and!; [exact wf_two_buffers|exact Hb|exact Hnew|].
  exact (copy_then_destroy_restores 64 two_buffers 0 2 _ wf_two_buffers Hb Hnew).
Defined.

Lemma built_store_is_consistent_witness :
  built 64 one_buffer
  /\ forall l blk, heap one_buffer !! l = Some blk ->
       use_count blk = N.of_nat (owners (objs one_buffer) l).
Proof.
  split; [exact built_one_buffer|].
  destruct (built_store_is_consistent 64 one_buffer built_one_buffer) as [_ Hcount].
  intros l blk Hl. destruct (Hcount l blk Hl) as [Hc _]. exact Hc.
Defined.

Lemma built_store_has_no_leak_witness :
  built 64 one_buffer
  /\ exists h b, objs one_buffer !! h = Some b /\ ptr b = Some 1%positive.
Proof.
  split; [exact built_one_buffer|].
  destruct (built_store_has_no_leak 64 one_buffer built_one_buffer) as [Hheld _].
  apply Hheld. eexists. vm_compute. reflexivity.
Defined.

Lemma early_walk_stays_in_bounds_witness :
  is_size_t 64 3
  /\ Nat.iter 5 (part_001.pre_inc 64) (part_001.begin_ (Some 1%positive) 3)
     = part_001.Mk (Some 1%positive) 3 (N.min (N.of_nat 5) 3).
Proof.
  assert (H3 : is_size_t 64 3) by reflexivity.
  split; [exact H3|].
  destruct (early_walk_stays_in_bounds 64 (Some 1%positive) 3 H3) as (_ & Hiter & _).
  exact (Hiter 5%nat).
Defined.

Lemma printed_text_determines_bytes_witness :
  wf 64 one_buffer /\ wf 64 two_buffers
  /\ objs one_buffer !! 0%nat = Some {| ptr := Some 1%positive; sz := 3 |}
  /\ objs two_buffers !! 1%nat = Some {| ptr := Some 2%positive; sz := 1 |}
  /\ exists os1 os2,
       shl 64 ostream.fresh_sink 0 one_buffer = Ret os1 one_buffer
       /\ shl 64 ostream.fresh_sink 1 two_buffers = Ret os2 two_buffers
       /\ ostream.out os1 <> ostream.out os2.
Proof.
  assert (H1 : objs one_buffer !! 0%nat = Some {| ptr := Some 1%positive; sz := 3 |})
    by (vm_compute; reflexivity).
  assert (H2 : objs two_buffers !! 1%nat = Some {| ptr := Some 2%positive; sz := 1 |})
    by (vm_compute; reflexivity).
  split_and!; [exact wf_one_buffer|exact wf_two_buffers|exact H1|exact H2|].
  destruct (printed_text_determines_bytes 64 one_buffer two_buffers 0 1 _ _
              ostream.fresh_sink wf_one_buffer wf_two_buffers H1 H2)
    as (os1 & os2 & Hp1 & Hp2 & Hiff).
  exists os1, os2. split_and!; [exact Hp1|exact Hp2|].
  intros Heq. apply Hiff in Heq. vm_compute in Heq. discriminate.
Defined.

Lemma range_for_fills_witness :
  wf 64 one_buffer
  /\ objs one_buffer !! 0%nat = Some {| ptr := Some 1%positive; sz := 3 |}
  /\ Some 1%positive <> None
  /\ exists s',
       @range_for 64 uint8_t N 0
         (fill_with (fun c => test_shared_buf.to_uint8 (c + 1)) N.succ) 0%N one_buffer
       = Ret 3%N s'
       /\ contents s' {| ptr := Some 1%positive; sz := 3 |}
          = [Byte.x01; Byte.x02; Byte.x03].
Proof.
  assert (Hb : objs one_buffer !! 0%nat = Some {| ptr := Some 1%positive; sz := 3 |})
    by (vm_compute; reflexivity).
  assert (Hp : Some 1%positive <> @None loc) by discriminate.
  split_and!; [exact wf_one_buffer|exact Hb|exact Hp|].
  destruct (range_for_fills 64 uint8_t N (fun c => test_shared_buf.to_uint8 (c + 1)) N.succ
              0%N one_buffer 0 _ wf_one_buffer Hb Hp)
    as (s' & Hrun & _ & _ & Hcontents & _).
  exists s'. split; [exact Hrun|exact Hcontents].
Defined.
End more_instances.
